(** * The secure settings store of the POSIX platform

    A shallow embedding of [src/posix/platform/secure_settings.cpp]: the
    record format, the sequential scan of [otPosixSecureSettingsGet], the
    rewrite through [/tmp/swap] of [otPosixSecureSettingsDelete] and
    [otPosixSecureSettingsSet], and the part of the POSIX file interface
    these functions rely on. *)

From Stdlib Require Import ZArith Lia Strings.Byte.
From stdpp Require Import base option list gmap.

Abbreviation bytes := (list byte).

(** ** Machine integers *)

(** [int] is 32 bits wide; [--aIndex] is modelled with two's complement
    wrap-around at [INT_MIN]. *)
Definition int_wrap (z : Z) : Z := ((z + 2 ^ 31) mod 2 ^ 32 - 2 ^ 31)%Z.

(** [otError], restricted to the values this file can produce or test. *)
Inductive otError : Set :=
  | OT_ERROR_NONE
  | OT_ERROR_FAILED
  | OT_ERROR_NOT_FOUND.

Global Instance otError_eq_dec : EqDecision otError.
Proof. solve_decision. Defined.

Definition byte_of_nat (n : nat) : byte :=
  default x00 (Byte.of_nat (n mod 256)).

(** Closes [Forall fits rs] for records [rs] that are written out. *)
Ltac fits_all :=
  repeat (apply Stdlib.Lists.List.Forall_cons;
          [cbv -[Nat.mul lt]; lia|]);
  apply Stdlib.Lists.List.Forall_nil.

(** Closes a conjunction of equations between closed terms, one after the
    other: the first may fix a state that the next ones mention. *)
Ltac by_computation :=
  repeat (apply conj; [vm_compute; reflexivity|]); vm_compute; reflexivity.

Section Store.

(** The header fields are written and read back as the object
    representation of a [uint16_t], in the byte order of the host. *)
Variable big_endian : bool.

(** ** Record codec *)

(** The two bytes [write(fd, &x, sizeof(x))] emits for [uint16_t x]. *)
Definition u16_bytes (x : nat) : bytes :=
  let lo := byte_of_nat x in
  let hi := byte_of_nat (x / 256) in
  if big_endian then [hi; lo] else [lo; hi].

(** The value a [uint16_t] holds after [read(fd, &x, sizeof(x))] filled
    it with the two bytes [bs]. *)
Definition u16_value (bs : bytes) : nat :=
  match bs with
  | [b0; b1] =>
      if big_endian then Byte.to_nat b0 * 256 + Byte.to_nat b1
      else Byte.to_nat b1 * 256 + Byte.to_nat b0
  | _ => 0
  end.

(** ** Files, names and descriptors *)

(** Files are inodes; a path names an inode and a descriptor refers to one.
    [rename] and [unlink] change names only, so a descriptor opened on a
    path keeps its inode when the path is given to another file.

    The host is taken to behave: [open] succeeds, [/tmp] and the settings
    directory are on one file system, a [read] on an open descriptor is
    short only at the end of the file, and a [write] is short only where
    the file would outgrow [swap_room]. *)
Record world : Type := World {
  inodes : gmap nat bytes;
  settings_path : option nat;       (* the inode named by the settings file name *)
  swap_path : option nat;           (* the inode named by /tmp/swap *)
  sSecureSettingsFd : option nat;   (* the inode behind the descriptor; None is -1 *)
  swap_room : nat;                  (* the size a file under /tmp may grow to *)
  stack : bytes                     (* what the memory of an uninitialised buffer holds *)
}.

Definition file_of (w : world) (name : option nat) : option bytes :=
  name ≫= λ i, inodes w !! i.

(** The contents of the settings file, reached through its name. *)
Definition store_file (w : world) : option bytes :=
  file_of w (settings_path w).

(** The contents of the file behind [sSecureSettingsFd]. *)
Definition fd_file (w : world) : option bytes :=
  file_of w (sSecureSettingsFd w).

(** [open(path, O_RDWR | O_CREAT | O_CLOEXEC, 0600)] on the settings path. *)
Definition open_settings (w : world) : world * nat :=
  match settings_path w with
  | Some i => (w, i)
  | None =>
      let i := fresh (dom (inodes w)) in
      (World (<[i := []]> (inodes w)) (Some i) (swap_path w)
             (sSecureSettingsFd w) (swap_room w) (stack w), i)
  end.

(** [open("/tmp/swap", O_RDWR | O_CREAT | O_TRUNC | O_CLOEXEC, 0600)]. *)
Definition open_swap (w : world) : world * nat :=
  let i := match swap_path w with
           | Some i => i
           | None => fresh (dom (inodes w))
           end in
  (World (<[i := []]> (inodes w)) (settings_path w) (Some i)
         (sSecureSettingsFd w) (swap_room w) (stack w), i).

(** The writes of one call accumulate in the file behind [swapFd]. *)
Definition set_file (w : world) (i : nat) (f : bytes) : world :=
  World (<[i := f]> (inodes w)) (settings_path w) (swap_path w)
        (sSecureSettingsFd w) (swap_room w) (stack w).

(** [rename("/tmp/swap", fileName)]: the settings file name is given to
    the inode of [/tmp/swap], which loses its own name. *)
Definition rename_swap (w : world) : world :=
  match swap_path w with
  | Some i => World (inodes w) (Some i) None (sSecureSettingsFd w) (swap_room w) (stack w)
  | None => w
  end.

(** [unlink(fileName)]. *)
Definition unlink_settings (w : world) : world :=
  World (inodes w) None (swap_path w) (sSecureSettingsFd w) (swap_room w) (stack w).

Definition set_fd (w : world) (fd : option nat) : world :=
  World (inodes w) (settings_path w) (swap_path w) fd (swap_room w) (stack w).

(** [read(fd, buf, n)] at file offset [pos]: the bytes transferred; their
    number is the return value, and the offset advances by it. *)
Definition pread (file : bytes) (pos n : nat) : bytes :=
  take n (drop pos file).

(** [write(swapFd, buf, n)]: the file after the call. A write that does not
    fit transfers the part that does. *)
Definition pwrite (room : nat) (sw buf : bytes) : bytes :=
  sw ++ take (room - length sw) buf.

(** The return value of that [write]. *)
Definition written (room : nat) (sw buf : bytes) : nat :=
  length (take (room - length sw) buf).

(** [lseek(fd, 0, SEEK_END)] and [lseek(fd, 0, SEEK_SET)]; both are -1 on a
    descriptor that is not open. *)
Definition lseek_end (f : option bytes) : Z :=
  match f with
  | Some file => Z.of_nat (length file)
  | None => (-1)%Z
  end.

Definition lseek_set (f : option bytes) : Z :=
  match f with
  | Some _ => 0%Z
  | None => (-1)%Z
  end.

(** The first [length got] bytes of the caller's buffer are overwritten. *)
Definition fill (buffer got : bytes) : bytes :=
  got ++ drop (length got) buffer.

(** ** otPosixSecureSettingsGet *)

(** What the caller observes: the status, the buffer behind [aValue] and
    the [uint16_t] behind [aValueLength] ([None] for a null pointer). *)
Definition get_result : Type := otError * option bytes * option nat.

Section Get.

Variables (file : bytes) (size : Z) (aKey : nat).

(** The [while (offset < size)] loop. [pos] is the file offset of the
    descriptor. *)
Fixpoint get_loop (fuel : nat) (offset : Z) (pos : nat) (aIndex : Z)
    (aValue : option bytes) (aValueLength : option nat) : option get_result :=
  match fuel with
  | 0 => None
  | S fuel =>
    if negb (offset <? size)%Z then
      Some (OT_ERROR_NOT_FOUND, aValue, aValueLength)
    else
      let kb := pread file pos 2 in
      if negb (length kb =? 2) then
        Some (OT_ERROR_NOT_FOUND, aValue, aValueLength)
      else
      let key := u16_value kb in
      let lb := pread file (pos + 2) 2 in
      if negb (length lb =? 2) then
        Some (OT_ERROR_NOT_FOUND, aValue, aValueLength)
      else
      let len := u16_value lb in
      let pos := pos + 4 in
      let skip (aIndex : Z) :=
        let offset := (offset + 4 + Z.of_nat len)%Z in
        let pos := pos + len in                 (* lseek(fd, length, SEEK_CUR) *)
        if negb (offset =? Z.of_nat pos)%Z then
          Some (OT_ERROR_NOT_FOUND, aValue, aValueLength)
        else
          get_loop fuel offset pos aIndex aValue aValueLength in
      if key =? aKey then
        if (aIndex =? 0)%Z then
          match aValueLength with
          | Some capacity =>
              match aValue with
              | Some buffer =>
                  let readLength := if len <=? capacity then len else capacity in
                  let got := pread file pos readLength in
                  if negb (length got =? readLength) then
                    Some (OT_ERROR_NONE, Some (fill buffer got), Some capacity)
                  else
                    Some (OT_ERROR_NONE, Some (fill buffer got), Some len)
              | None => Some (OT_ERROR_NONE, None, Some len)
              end
          | None => Some (OT_ERROR_NONE, aValue, None)
          end
        else skip (int_wrap (aIndex - 1))
      else skip aIndex
  end.

End Get.

Definition otPosixSecureSettingsGet (w : world) (aKey : nat) (aIndex : Z)
    (aValue : option bytes) (aValueLength : option nat) : option get_result :=
  let f := fd_file w in
  let file := default [] f in
  get_loop file (lseek_end f) aKey (S (length file)) (lseek_set f) 0
           aIndex aValue aValueLength.

(** ** otPosixSecureSettingsDelete *)

(** [uint8_t buffer[512]] is not initialised: it starts with what the stack
    holds there. *)
Definition buffer512 (w : world) : bytes :=
  take 512 (stack w ++ replicate 512 x00).

(** How the copy of one payload ends: at the end of the inner loop, with
    the file offset, the buffer and the swap file it leaves, or at [exit]
    with the swap file as written so far. *)
Inductive copied : Type :=
  | Copied (pos : nat) (buffer sw : bytes)
  | CopyExit (sw : bytes).

(** How the scan ends: [renamed] says whether the loop ran to its end, and
    so reached the [rename]; a [VerifyOrExit] that fails jumps past it. *)
Record rewritten : Type := Rewritten {
  renamed : bool;
  status : otError;
  swap_file : bytes
}.

Section Delete.

Variables (file : bytes) (size : Z) (room : nat) (aKey : nat).

(** The inner [while (length > 0)] loop. *)
Fixpoint copy_loop (fuel : nat) (len pos : nat) (buffer sw : bytes)
    : option copied :=
  if len =? 0 then Some (Copied pos buffer sw)
  else
    match fuel with
    | 0 => None
    | S fuel =>
      let count := if 512 <=? len then 512 else len in
      let got := pread file pos count in
      if negb (0 <? length got) then Some (CopyExit sw)
      else
      let buffer := fill buffer got in
      let pos := pos + length got in
      let out := take count buffer in
      let rval := written room sw out in
      let sw := pwrite room sw out in
      if negb (rval =? count) then Some (CopyExit sw)
      else copy_loop fuel (len - count) pos buffer sw
    end.

(** The outer [while (offset < size)] loop. *)
Fixpoint delete_loop (fuel : nat) (offset : Z) (pos : nat) (aIndex : Z)
    (error : otError) (buffer sw : bytes) : option rewritten :=
  match fuel with
  | 0 => None
  | S fuel =>
    if negb (offset <? size)%Z then Some (Rewritten true error sw)
    else
      let kb := pread file pos 2 in
      if negb (length kb =? 2) then Some (Rewritten false error sw)
      else
      let key := u16_value kb in
      let lb := pread file (pos + 2) 2 in
      if negb (length lb =? 2) then Some (Rewritten false error sw)
      else
      let len := u16_value lb in
      let pos := pos + 4 in
      let offset := (offset + 4 + Z.of_nat len)%Z in
      let copy (aIndex : Z) :=
        let out := u16_bytes key in
        let rval := written room sw out in
        let sw := pwrite room sw out in
        if negb (rval =? 2) then Some (Rewritten false error sw)
        else
        let out := u16_bytes len in
        let rval := written room sw out in
        let sw := pwrite room sw out in
        if negb (rval =? 2) then Some (Rewritten false error sw)
        else
        match copy_loop len len pos buffer sw with
        | None => None
        | Some (CopyExit sw) => Some (Rewritten false error sw)
        | Some (Copied pos buffer sw) =>
            delete_loop fuel offset pos aIndex error buffer sw
        end in
      if aKey =? key then
        if (aIndex =? 0)%Z then
          let pos := pos + len in               (* lseek(fd, length, SEEK_CUR) *)
          if negb (offset =? Z.of_nat pos)%Z then Some (Rewritten false error sw)
          else delete_loop fuel offset pos aIndex OT_ERROR_NONE buffer sw
        else if (aIndex =? -1)%Z then
          let pos := pos + len in
          if negb (offset =? Z.of_nat pos)%Z then Some (Rewritten false error sw)
          else delete_loop fuel offset pos aIndex OT_ERROR_NONE buffer sw
        else copy (int_wrap (aIndex - 1))
      else copy aIndex
  end.

End Delete.

(** The swap file is truncated before the size of the store is taken. On
    [exit] the swap file stays as written; otherwise it takes the name of
    the settings file. [sSecureSettingsFd] is not assigned. *)
Definition otPosixSecureSettingsDelete (w : world) (aKey : nat) (aIndex : Z)
    : option (otError * world) :=
  let '(w, swapFd) := open_swap w in
  let f := fd_file w in
  let file := default [] f in
  r ← delete_loop file (lseek_end f) (swap_room w) aKey (S (length file))
        (lseek_set f) 0 aIndex OT_ERROR_NOT_FOUND (buffer512 w) [];
  let w := set_file w swapFd (swap_file r) in
  Some (status r, if renamed r then rename_swap w else w).

(** ** otPosixSecureSettingsSet and otPosixSecureSettingsAdd *)

(** A call returns, or the process ends in [VerifyOrDie] or [assert]. *)
Inductive outcome : Type :=
  | Returned (error : otError) (w : world)
  | Terminated (w : world).

(** [aValue] holds the [aValueLength] bytes of the value (and possibly more
    behind them). *)
Definition otPosixSecureSettingsSet (w : world) (aKey : nat) (aValue : bytes)
    (aValueLength : nat) : option outcome :=
  '(error, w) ← otPosixSecureSettingsDelete w aKey (-1);
  match error with
  | OT_ERROR_NONE | OT_ERROR_NOT_FOUND =>
      let '(w, swapFd) := open_swap w in
      let room := swap_room w in
      let sw := [] in
      let out := u16_bytes aKey in
      let rval := written room sw out in
      let sw := pwrite room sw out in
      if negb (rval =? 2) then Some (Terminated (set_file w swapFd sw))
      else
      let out := u16_bytes aValueLength in
      let rval := written room sw out in
      let sw := pwrite room sw out in
      if negb (rval =? 2) then Some (Terminated (set_file w swapFd sw))
      else
      let out := take aValueLength aValue in
      let rval := written room sw out in
      let sw := pwrite room sw out in
      if negb (rval =? aValueLength) then Some (Terminated (set_file w swapFd sw))
      else Some (Returned OT_ERROR_NONE (rename_swap (set_file w swapFd sw)))
  | _ => Some (Terminated w)                    (* assert(false) *)
  end.

Definition otPosixSecureSettingsAdd (w : world) (aKey : nat) (aValue : bytes)
    (aValueLength : nat) : option outcome :=
  otPosixSecureSettingsSet w aKey aValue aValueLength.

(** ** Initialisation, teardown and wipe *)

(** The scan that follows the [open] in the source moves the file offset
    only, and every operation starts with an [lseek] to offset 0. *)
Definition otPosixSecureSettingsInit (w : world) : world :=
  let '(w, fd) := open_settings w in
  set_fd w (Some fd).

Definition otPosixSecureSettingsDeinit (w : world) : world :=
  set_fd w None.

Definition otPosixSecureSettingsWipe (w : world) : world :=
  unlink_settings w.

(** ** Records and stores *)

Definition record : Type := nat * bytes.

(** The bytes of one record: key, then length, then the value. *)
Definition encode_record (r : record) : bytes :=
  u16_bytes r.1 ++ u16_bytes (length r.2) ++ r.2.

Definition encode_store (rs : list record) : bytes :=
  concat (encode_record <$> rs).

(** Key and length fit their 16-bit fields. *)
Definition fits (r : record) : Prop :=
  r.1 < 256 * 256 ∧ length r.2 < 256 * 256.

(** The records of a key, in file order: its occurrences 0, 1, ... *)
Definition occurrences (aKey : nat) (rs : list record) : list record :=
  filter (λ r, r.1 = aKey) rs.

(** The records of the other keys. *)
Definition others (aKey : nat) (rs : list record) : list record :=
  filter (λ r, r.1 ≠ aKey) rs.

(** The store without the occurrences of [aKey] from the [k]-th on. *)
Fixpoint keep_first (aKey : nat) (k : nat) (rs : list record) : list record :=
  match rs with
  | [] => []
  | r :: rs =>
      if decide (r.1 = aKey) then
        match k with
        | 0 => keep_first aKey 0 rs
        | S k => r :: keep_first aKey k rs
        end
      else r :: keep_first aKey k rs
  end.

(** What a successful [get] of a record with value [v] leaves in the
    caller's buffer and length. *)
Definition delivered (v : bytes) (aValue : option bytes)
    (aValueLength : option nat) : get_result :=
  match aValueLength with
  | Some capacity =>
      match aValue with
      | Some buffer =>
          (OT_ERROR_NONE, Some (fill buffer (take capacity v)), Some (length v))
      | None => (OT_ERROR_NONE, None, Some (length v))
      end
  | None => (OT_ERROR_NONE, aValue, None)
  end.

(** What [get] leaves when the record it looks for is the last of the file
    and its header declares [len] bytes where only [rest] follow. *)
Definition delivered_short (rest : bytes) (len : nat) (aValue : option bytes)
    (aValueLength : option nat) : get_result :=
  match aValueLength with
  | Some capacity =>
      match aValue with
      | Some buffer =>
          if length rest <? capacity
          then (OT_ERROR_NONE, Some (fill buffer rest), Some capacity)
          else (OT_ERROR_NONE, Some (fill buffer (take capacity rest)), Some len)
      | None => (OT_ERROR_NONE, None, Some len)
      end
  | None => (OT_ERROR_NONE, aValue, None)
  end.

(** The descriptor is open on a file that holds the records [rs], and that
    file is not the one [/tmp/swap] names. *)
Definition opened_on (w : world) (rs : list record) : Prop :=
  fd_file w = Some (encode_store rs) ∧ swap_path w ≠ sSecureSettingsFd w.

(** The settings file holds the records [rs]. *)
Definition store_holds (w : world) (rs : list record) : Prop :=
  store_file w = Some (encode_store rs).

(** An index a caller can pass: -1, or a count that fits [int]. *)
Definition index_ok (aIndex : Z) : Prop :=
  (aIndex = -1 ∨ 0 ≤ aIndex < 2 ^ 31)%Z.

(** A tail at which the scan cannot go on: a header cut short, or a header
    whose length field asks for more bytes than the file has left. *)
Definition partial_header (tail : bytes) : Prop :=
  0 < length tail < 4.

Definition overrun (tail : bytes) : Prop :=
  4 ≤ length tail ∧ length tail - 4 < u16_value (pread tail 2 2).

Definition malformed (tail : bytes) : Prop :=
  partial_header tail ∨ overrun tail.

(** ** The scan of otPosixSecureSettingsInit *)

Section Init.

Variables (file : bytes) (size : Z).

(** The [for] loop that follows the [open] in [otPosixSecureSettingsInit]:
    the value [offset] has when the loop is left. Nothing is kept of it. *)
Fixpoint init_loop (fuel : nat) (offset : Z) (pos : nat) : option Z :=
  match fuel with
  | 0 => None
  | S fuel =>
    if negb (offset <? size)%Z then Some offset
    else
      let kb := pread file pos 2 in
      if negb (length kb =? 2) then Some offset
      else
      let lb := pread file (pos + 2) 2 in
      if negb (length lb =? 2) then Some offset
      else
      let len := u16_value lb in
      let pos := pos + 4 in
      let offset := (offset + 4 + Z.of_nat len)%Z in
      let pos := pos + len in                   (* lseek(fd, length, SEEK_CUR) *)
      if negb (offset =? Z.of_nat pos)%Z then Some offset
      else init_loop fuel offset pos
  end.

End Init.

(** The scan on the descriptor that [otPosixSecureSettingsInit] has just
    opened. *)
Definition init_scan (w : world) : option Z :=
  let f := fd_file (otPosixSecureSettingsInit w) in
  let file := default [] f in
  init_loop file (lseek_end f) (S (length file)) (lseek_set f) 0.

(** ** States *)

(** The descriptor, where it is open, is on a file that exists and that
    [/tmp/swap] does not name. *)
Definition descriptor_ok (w : world) : Prop :=
  ∀ j, sSecureSettingsFd w = Some j →
       is_Some (inodes w !! j) ∧ swap_path w ≠ Some j.

(** The host after a call of [set], whether the call returned or ended the
    process. *)
Definition world_of (o : outcome) : world :=
  match o with
  | Returned _ w => w
  | Terminated w => w
  end.

(** The index [delete] goes on with once it has passed [count] occurrences
    of the key. *)
Definition index_after (aIndex : Z) (count : nat) : Z :=
  if (aIndex =? -1)%Z then (-1)%Z else Z.of_nat (Z.to_nat aIndex - count).

(** ** Concrete stores *)

(** A host with no settings file yet, and the store right after
    initialisation on it. *)
Definition fresh_world : world := World ∅ None None None 4096 [].

Definition empty_store : world := otPosixSecureSettingsInit fresh_world.

(** The store after initialisation on a settings file that holds the bytes
    [f]; [junk] is what the stack holds. *)
Definition store_of (f junk : bytes) : world :=
  otPosixSecureSettingsInit (World {[0 := f]} (Some 0) None None 4096 junk).

(** The descriptor is closed and opened again. *)
Definition reopen (w : world) : world :=
  otPosixSecureSettingsInit (otPosixSecureSettingsDeinit w).

Definition AB : bytes := [x41; x42].
Definition CD : bytes := [x43; x44].
Definition zeros : bytes := [x00; x00].

(** A record with key 2 whose header declares 10 bytes, followed by 3. *)
Definition cut_short : bytes :=
  u16_bytes 2 ++ u16_bytes 10 ++ [x01; x02; x03].

(** ** Facts about the codec *)

Lemma to_nat_byte_of_nat n : Byte.to_nat (byte_of_nat n) = n mod 256.
Proof.
  unfold byte_of_nat.
  destruct (Byte.of_nat (n mod 256)) as [b|] eqn:E.
  - apply Byte.to_of_nat in E. exact E.
  - apply Byte.of_nat_None_iff in E.
    pose proof (Nat.mod_upper_bound n 256). lia.
Qed.

Lemma byte_of_nat_to_nat b : byte_of_nat (Byte.to_nat b) = b.
Proof.
  unfold byte_of_nat. pose proof (Byte.to_nat_bounded b).
  rewrite Nat.mod_small by lia. by rewrite Byte.of_to_nat.
Qed.

Lemma byte_of_nat_congr n m : n mod 256 = m mod 256 → byte_of_nat n = byte_of_nat m.
Proof. unfold byte_of_nat. by intros ->. Qed.

Lemma length_u16_bytes x : length (u16_bytes x) = 2.
Proof. unfold u16_bytes. by destruct big_endian. Qed.

Lemma u16_value_bytes x : x < 256 * 256 → u16_value (u16_bytes x) = x.
Proof.
  intros Hx. unfold u16_bytes, u16_value.
  assert (x / 256 < 256) by (apply Nat.Div0.div_lt_upper_bound; lia).
  pose proof (Nat.div_mod_eq x 256).
  destruct big_endian; rewrite !to_nat_byte_of_nat;
    rewrite (Nat.mod_small (x / 256)) by lia; lia.
Qed.

Lemma div_mod_256 a b :
  b < 256 → (a * 256 + b) mod 256 = b ∧ (a * 256 + b) / 256 = a.
Proof.
  intros Hb. split; symmetry.
  - apply (Nat.mod_unique _ _ a); lia.
  - apply (Nat.div_unique _ _ _ b); lia.
Qed.

Lemma u16_bytes_value bs : length bs = 2 → u16_bytes (u16_value bs) = bs.
Proof.
  destruct bs as [|b0 [|b1 [|? ?]]]; try discriminate. intros _.
  pose proof (Byte.to_nat_bounded b0). pose proof (Byte.to_nat_bounded b1).
  unfold u16_bytes, u16_value. destruct big_endian.
  - destruct (div_mod_256 (Byte.to_nat b0) (Byte.to_nat b1)) as [Hm ->]; [lia|].
    rewrite (byte_of_nat_congr (Byte.to_nat b0 * 256 + Byte.to_nat b1) (Byte.to_nat b1)).
    + by rewrite !byte_of_nat_to_nat.
    + rewrite Hm, Nat.mod_small; lia.
  - destruct (div_mod_256 (Byte.to_nat b1) (Byte.to_nat b0)) as [Hm ->]; [lia|].
    rewrite (byte_of_nat_congr (Byte.to_nat b1 * 256 + Byte.to_nat b0) (Byte.to_nat b0)).
    + by rewrite !byte_of_nat_to_nat.
    + rewrite Hm, Nat.mod_small; lia.
Qed.

Lemma u16_value_lt bs : u16_value bs < 256 * 256.
Proof.
  unfold u16_value.
  destruct bs as [|b0 [|b1 [|? ?]]]; try lia.
  pose proof (Byte.to_nat_bounded b0). pose proof (Byte.to_nat_bounded b1).
  destruct big_endian; lia.
Qed.

Lemma length_encode_record r : length (encode_record r) = 4 + length r.2.
Proof.
  unfold encode_record. rewrite !length_app, !length_u16_bytes. lia.
Qed.

Lemma encode_store_cons r rs :
  encode_store (r :: rs) = encode_record r ++ encode_store rs.
Proof. reflexivity. Qed.

Lemma length_encode_store rs : 4 * length rs ≤ length (encode_store rs).
Proof.
  induction rs as [|r rs IH]; [done|].
  rewrite encode_store_cons, length_app, length_encode_record. simpl. lia.
Qed.

(** ** Facts about reads and writes *)

Lemma pread_app pre f p n : pread (pre ++ f) (length pre + p) n = pread f p n.
Proof. unfold pread. by rewrite drop_app_add. Qed.

Lemma pread_0 f n : pread f 0 n = take n f.
Proof. done. Qed.

Lemma length_pread_le f p n : length (pread f p n) ≤ n.
Proof. unfold pread. rewrite length_take. lia. Qed.

Lemma pread_skip a f p n : p = length a → pread (a ++ f) p n = take n f.
Proof. intros ->. unfold pread. by rewrite drop_app_length. Qed.

(** The three reads of the scan on a record that is in the file whole. *)
Lemma pread_record pre r rest file pos :
  file = pre ++ encode_record r ++ rest → pos = length pre →
  pread file pos 2 = u16_bytes r.1 ∧
  pread file (pos + 2) 2 = u16_bytes (length r.2) ∧
  ∀ n, pread file (pos + 4) n = take n (r.2 ++ rest).
Proof.
  intros -> ->. unfold encode_record. rewrite <-!app_assoc. split_and!.
  - rewrite pread_skip by done.
    by rewrite take_app_length' by by rewrite length_u16_bytes.
  - rewrite (app_assoc pre), pread_skip
      by (rewrite length_app, length_u16_bytes; lia).
    by rewrite take_app_length' by by rewrite length_u16_bytes.
  - intros n. rewrite (app_assoc pre), (app_assoc (pre ++ _)), pread_skip
      by (rewrite !length_app, !length_u16_bytes; lia).
    done.
Qed.

Lemma written_fits room sw buf :
  length sw + length buf ≤ room →
  written room sw buf = length buf ∧ pwrite room sw buf = sw ++ buf.
Proof.
  intros H. unfold written, pwrite. by rewrite take_ge by lia.
Qed.

Lemma int_wrap_id z : (- 2 ^ 31 ≤ z < 2 ^ 31)%Z → int_wrap z = z.
Proof. intros H. unfold int_wrap. rewrite Z.mod_small; lia. Qed.

Lemma occurrences_cons aKey r rs :
  occurrences aKey (r :: rs) =
    if decide (r.1 = aKey) then r :: occurrences aKey rs else occurrences aKey rs.
Proof. unfold occurrences. by rewrite filter_cons. Qed.

(** ** The scan of [get] over whole records *)

(** The copy into the caller's buffer, for a value that is in the file
    whole. *)
Lemma get_copy (v rest : bytes) capacity :
  let readLength := if length v <=? capacity then length v else capacity in
  take readLength (v ++ rest) = take capacity v ∧
  length (take capacity v) = readLength.
Proof.
  destruct (Nat.leb_spec (length v) capacity) as [Hle|Hgt]; simpl.
  - by rewrite take_app_length, take_ge.
  - rewrite take_app_le, length_take_le by lia. done.
Qed.

(** Over the records [rs] the loop either delivers the occurrence asked
    for, or arrives behind them with the index lowered by the occurrences
    it passed. *)
Lemma get_loop_records file aKey rs rest aValue aValueLength :
  Forall fits rs →
  ∀ fuel pre offset pos aIndex,
    file = pre ++ encode_store rs ++ rest →
    pos = length pre → offset = Z.of_nat pos →
    (0 ≤ aIndex < 2 ^ 31)%Z →
    get_loop file (Z.of_nat (length file)) aKey (length rs + fuel) offset pos
             aIndex aValue aValueLength =
      match occurrences aKey rs !! Z.to_nat aIndex with
      | Some r => Some (delivered r.2 aValue aValueLength)
      | None =>
          get_loop file (Z.of_nat (length file)) aKey fuel
            (Z.of_nat (pos + length (encode_store rs)))
            (pos + length (encode_store rs))
            (aIndex - Z.of_nat (length (occurrences aKey rs))) aValue aValueLength
      end.
Proof.
  induction 1 as [|r rs [Hkey Hlen] Hrs IH];
    intros fuel pre offset pos aIndex Hfile Hpos Hoff Hidx.
  - simpl. rewrite Nat.add_0_r, Z.sub_0_r. by subst.
  - destruct (pread_record pre r (encode_store rs ++ rest) file pos)
      as (Hk & Hl & Hv);
      [by rewrite Hfile, encode_store_cons, <-app_assoc | done |].
    assert (Hsize : (offset <? Z.of_nat (length file))%Z = true).
    { apply Z.ltb_lt.
      rewrite Hfile, encode_store_cons, !length_app, length_encode_record. lia. }
    assert (Hskip : (offset + 4 + Z.of_nat (length r.2) =?
                     Z.of_nat (pos + 4 + length r.2))%Z = true)
      by (apply Z.eqb_eq; lia).
    specialize (IH fuel (pre ++ encode_record r)
                  (offset + 4 + Z.of_nat (length r.2))%Z (pos + 4 + length r.2)).
    rewrite encode_store_cons, <-app_assoc, (app_assoc pre) in Hfile.
    rewrite length_app, length_encode_record in IH.
    rewrite encode_store_cons, length_app, length_encode_record.
    replace (pos + (4 + length r.2 + length (encode_store rs)))
      with (pos + 4 + length r.2 + length (encode_store rs)) by lia.
    change (length (r :: rs) + fuel) with (S (length rs + fuel)).
    cbn [get_loop].
    rewrite Hsize, Hk, Hl, !length_u16_bytes, !u16_value_bytes, Hskip by done.
    cbn [negb Nat.eqb]. rewrite occurrences_cons.
    destruct (Nat.eqb_spec r.1 aKey) as [Heq|Hne].
    + rewrite decide_True by done.
      destruct (Z.eqb_spec aIndex 0) as [->|Hnz].
      * simpl. unfold delivered.
        destruct aValueLength as [capacity|]; [|done].
        destruct aValue as [buffer|]; [|done].
        destruct (get_copy r.2 (encode_store rs ++ rest) capacity) as [Ht Hn].
        simpl in Ht, Hn. by rewrite Hv, Ht, Hn, Nat.eqb_refl.
      * rewrite int_wrap_id, IH by (done || lia).
        replace (Z.to_nat aIndex) with (S (Z.to_nat (aIndex - 1))) by lia.
        simpl. destruct (_ !! _); [done|]. f_equal. lia.
    + rewrite decide_False by done. by rewrite IH by (done || lia).
Qed.

(** The loop of [get] always comes to an end on the fuel it is given. *)
Lemma get_loop_total file size aKey fuel :
  ∀ offset pos aIndex aValue aValueLength,
    0 < fuel → (size - offset < Z.of_nat fuel)%Z →
    is_Some (get_loop file size aKey fuel offset pos aIndex aValue aValueLength).
Proof.
  induction fuel as [|fuel IH]; intros offset pos aIndex aValue aValueLength Hf Hm;
    [lia|].
  cbn [get_loop].
  destruct (Z.ltb_spec offset size); cbn [negb]; [|eauto].
  repeat (case_match; eauto); apply IH; lia.
Qed.

Lemma otPosixSecureSettingsGet_total w aKey aIndex aValue aValueLength :
  is_Some (otPosixSecureSettingsGet w aKey aIndex aValue aValueLength).
Proof.
  unfold otPosixSecureSettingsGet. apply get_loop_total; [lia|].
  destruct (fd_file w); simpl; lia.
Qed.

(** [get] on a descriptor whose file holds whole records. *)
Lemma get_on_records w rs aKey aIndex aValue aValueLength :
  fd_file w = Some (encode_store rs) → Forall fits rs →
  (0 ≤ aIndex < 2 ^ 31)%Z →
  otPosixSecureSettingsGet w aKey aIndex aValue aValueLength =
    match occurrences aKey rs !! Z.to_nat aIndex with
    | Some r => Some (delivered r.2 aValue aValueLength)
    | None => Some (OT_ERROR_NOT_FOUND, aValue, aValueLength)
    end.
Proof.
  intros Hfd Hrs Hidx. unfold otPosixSecureSettingsGet. rewrite Hfd.
  cbn [from_option lseek_end lseek_set id]. change (Z.of_nat 0) with 0%Z.
  pose proof (length_encode_store rs) as Hlen.
  replace (S (length (encode_store rs)))
    with (length rs + S (length (encode_store rs) - length rs)) by lia.
  rewrite (get_loop_records _ _ rs [] _ _ Hrs _ []);
    [| by rewrite app_nil_r | done | done | done].
  destruct (_ !! _); [done|].
  cbn [get_loop Nat.add]. by rewrite Z.ltb_irrefl.
Qed.

(** ** The rewrite of [delete] over whole records *)

(** A payload that is in the file whole is copied whole, when the swap file
    has room for it. *)
Lemma copy_loop_whole file room fuel :
  ∀ len pos buffer sw v,
    len ≤ fuel → pread file pos len = v → length v = len →
    length sw + len ≤ room →
    ∃ buffer',
      copy_loop file room fuel len pos buffer sw =
        Some (Copied (pos + len) buffer' (sw ++ v)).
Proof.
  induction fuel as [|fuel IH]; intros len pos buffer sw v Hfuel Hv Hlen Hroom.
  - assert (len = 0) as -> by lia. destruct v; [|done].
    exists buffer. cbn. by rewrite Nat.add_0_r, app_nil_r.
  - cbn [copy_loop]. destruct (Nat.eqb_spec len 0) as [->|Hpos].
    { destruct v; [|done]. exists buffer. by rewrite Nat.add_0_r, app_nil_r. }
    set (count := if 512 <=? len then 512 else len).
    assert (Hcount : 0 < count ≤ len).
    { unfold count. destruct (Nat.leb_spec 512 len); lia. }
    assert (Hgot : pread file pos count = take count v).
    { rewrite <-Hv. unfold pread. rewrite take_take. f_equal. lia. }
    assert (Hn : length (take count v) = count) by (rewrite length_take; lia).
    rewrite Hgot, Hn.
    replace (0 <? count) with true by (symmetry; apply Nat.ltb_lt; lia).
    cbn [negb].
    assert (Hout : take count (fill buffer (take count v)) = take count v)
      by (unfold fill; by rewrite take_app_length').
    rewrite Hout.
    destruct (written_fits room sw (take count v)) as [-> ->]; [lia|].
    rewrite Hn, Nat.eqb_refl. cbn [negb].
    destruct (IH (len - count) (pos + count)
                (fill buffer (take count v)) (sw ++ take count v) (drop count v))
      as [buffer' Hc].
    + lia.
    + rewrite <-Hv. unfold pread.
      transitivity (take (len - count) (drop count (drop pos file)));
        [by rewrite drop_drop|].
      rewrite take_drop_commute. do 2 f_equal. lia.
    + rewrite length_drop. lia.
    + rewrite length_app, Hn. lia.
    + exists buffer'. rewrite Hc. f_equal. f_equal; [lia|].
      by rewrite <-app_assoc, take_drop.
Qed.

(** Over a file of whole records the loop runs to its end: it copies the
    records [keep_first] keeps, and reports whether it dropped one. *)
Lemma delete_loop_records file room aKey rs :
  Forall fits rs →
  ∀ fuel pre offset pos aIndex error buffer sw,
    file = pre ++ encode_store rs →
    pos = length pre → offset = Z.of_nat pos →
    index_ok aIndex → length rs < fuel →
    length sw + length (encode_store (keep_first aKey (Z.to_nat aIndex) rs)) ≤ room →
    delete_loop file (Z.of_nat (length file)) room aKey fuel offset pos aIndex
                error buffer sw =
      Some (Rewritten true
              (if decide (Z.to_nat aIndex < length (occurrences aKey rs))
               then OT_ERROR_NONE else error)
              (sw ++ encode_store (keep_first aKey (Z.to_nat aIndex) rs))).
Proof.
  induction 1 as [|r rs [Hkey Hlen] Hrs IH];
    intros fuel pre offset pos aIndex error buffer sw Hfile Hpos Hoff Hidx Hfuel Hroom.
  - destruct fuel as [|fuel]; [simpl in Hfuel; lia|]. cbn [delete_loop].
    replace (offset <? _)%Z with false.
    2: { symmetry. apply Z.ltb_ge. rewrite Hfile, length_app. simpl. lia. }
    cbn. by rewrite app_nil_r.
  - destruct fuel as [|fuel]; [simpl in Hfuel; lia|].
    destruct (pread_record pre r (encode_store rs) file pos)
      as (Hk & Hl & Hv); [by rewrite Hfile | done |].
    assert (Hsize : (offset <? Z.of_nat (length file))%Z = true).
    { apply Z.ltb_lt.
      rewrite Hfile, encode_store_cons, !length_app, length_encode_record. lia. }
    assert (Hskip : (offset + 4 + Z.of_nat (length r.2) =?
                     Z.of_nat (pos + 4 + length r.2))%Z = true)
      by (apply Z.eqb_eq; lia).
    specialize (IH fuel (pre ++ encode_record r)
                  (offset + 4 + Z.of_nat (length r.2))%Z (pos + 4 + length r.2)).
    rewrite encode_store_cons, (app_assoc pre) in Hfile.
    rewrite length_app, length_encode_record in IH.
    cbn [delete_loop].
    rewrite Hsize, Hk, Hl, !length_u16_bytes, !u16_value_bytes, Hskip by done.
    cbn [negb Nat.eqb]. rewrite occurrences_cons. cbn [keep_first] in Hroom |- *.
    assert (Hcopy :
      length sw + length (encode_record r) ≤ room →
      ∃ buffer',
        copy_loop file room (length r.2) (length r.2) (pos + 4) buffer
          (pwrite room (pwrite room sw (u16_bytes r.1)) (u16_bytes (length r.2))) =
          Some (Copied (pos + 4 + length r.2) buffer' (sw ++ encode_record r)) ∧
        written room sw (u16_bytes r.1) = 2 ∧
        written room (pwrite room sw (u16_bytes r.1)) (u16_bytes (length r.2)) = 2).
    { rewrite length_encode_record. intros Hr.
      destruct (written_fits room sw (u16_bytes r.1)) as [-> ->];
        [rewrite length_u16_bytes; lia|].
      destruct (written_fits room (sw ++ u16_bytes r.1) (u16_bytes (length r.2)))
        as [-> ->]; [rewrite length_app, !length_u16_bytes; lia|].
      destruct (copy_loop_whole file room (length r.2) (length r.2) (pos + 4) buffer
                  ((sw ++ u16_bytes r.1) ++ u16_bytes (length r.2)) r.2)
        as [buffer' ->]; [done | | done | |].
      - by rewrite Hv, take_app_length.
      - rewrite !length_app, !length_u16_bytes. lia.
      - exists buffer'. rewrite !length_u16_bytes. split_and!; try done.
        unfold encode_record. by rewrite <-!app_assoc. }
    destruct (Nat.eqb_spec aKey r.1) as [Heq|Hne].
    + rewrite !(decide_True (P := r.1 = aKey)) in Hroom by congruence.
      rewrite !(decide_True (P := r.1 = aKey)) by congruence.
      destruct (Z.eqb_spec aIndex 0) as [->|Hnz];
        [|destruct (Z.eqb_spec aIndex (-1)) as [->|Hn1]].
      * rewrite IH; [| done | lia | lia | done | simpl in Hfuel; lia | done ].
        change (Z.to_nat 0) with 0.
        repeat case_decide; try done; cbn [length] in *; lia.
      * rewrite IH; [| done | lia | lia | done | simpl in Hfuel; lia | done ].
        change (Z.to_nat (-1)) with 0.
        repeat case_decide; try done; cbn [length] in *; lia.
      * assert (0 < aIndex < 2 ^ 31)%Z as Hi by (destruct Hidx; lia).
        replace (Z.to_nat aIndex) with (S (Z.to_nat (aIndex - 1))) in Hroom |- * by lia.
        cbn [keep_first] in Hroom |- *.
        rewrite encode_store_cons, length_app in Hroom.
        destruct Hcopy as (buffer' & -> & -> & ->); [lia|].
        cbn [negb Nat.eqb]. rewrite int_wrap_id by lia.
        rewrite IH;
          [| done | lia | lia | right; lia | simpl in Hfuel; lia
           | rewrite length_app; lia ].
        rewrite encode_store_cons, <-app_assoc. do 2 f_equal.
        repeat case_decide; try done; cbn [length] in *; lia.
    + rewrite !(decide_False (P := r.1 = aKey)) in Hroom by congruence.
      rewrite !(decide_False (P := r.1 = aKey)) by congruence.
      rewrite encode_store_cons, length_app in Hroom.
      destruct Hcopy as (buffer' & -> & -> & ->); [lia|].
      cbn [negb Nat.eqb].
      rewrite IH;
        [| done | lia | lia | done | simpl in Hfuel; lia | rewrite length_app; lia ].
      by rewrite encode_store_cons, <-app_assoc.
Qed.

(** Both loops of [delete] come to an end on the fuel they are given. *)
Lemma copy_loop_total file room fuel :
  ∀ len pos buffer sw,
    len ≤ fuel → is_Some (copy_loop file room fuel len pos buffer sw).
Proof.
  induction fuel as [|fuel IH]; intros len pos buffer sw Hfuel.
  - assert (len = 0) as -> by lia. cbn. eauto.
  - cbn [copy_loop]. destruct (Nat.eqb_spec len 0); [eauto|].
    destruct (negb (0 <? _)); [eauto|].
    destruct (negb (_ =? _)); [eauto|].
    apply IH. destruct (Nat.leb_spec 512 len); lia.
Qed.

Lemma delete_loop_total file size room aKey fuel :
  ∀ offset pos aIndex error buffer sw,
    0 < fuel → (size - offset < Z.of_nat fuel)%Z →
    is_Some (delete_loop file size room aKey fuel offset pos aIndex error buffer sw).
Proof.
  induction fuel as [|fuel IH]; intros offset pos aIndex error buffer sw Hf Hm;
    [lia|].
  cbn [delete_loop].
  destruct (Z.ltb_spec offset size); cbn [negb]; [|eauto].
  assert (Hnext : ∀ len pos aIndex error buffer sw,
    is_Some (delete_loop file size room aKey fuel
               (offset + 4 + Z.of_nat len) pos aIndex error buffer sw))
    by (intros; apply IH; lia).
  repeat (case_match; eauto).
  all: match goal with
       | H : copy_loop ?f ?r ?n ?n ?p ?b ?s = None |- _ =>
           destruct (copy_loop_total f r n n p b s) as [? ?]; [lia|congruence]
       end.
Qed.

Lemma otPosixSecureSettingsDelete_total w aKey aIndex :
  is_Some (otPosixSecureSettingsDelete w aKey aIndex).
Proof.
  unfold otPosixSecureSettingsDelete, open_swap. cbn [fst snd].
  match goal with
  | |- context [delete_loop ?f ?s ?r ?k ?n ?o ?p ?i ?e ?b ?sw] =>
      destruct (delete_loop_total f s r k n o p i e b sw) as [x ->]
  end; [lia | | by eauto].
  destruct (fd_file _); simpl; lia.
Qed.

Lemma otPosixSecureSettingsSet_total w aKey aValue aValueLength :
  is_Some (otPosixSecureSettingsSet w aKey aValue aValueLength).
Proof.
  unfold otPosixSecureSettingsSet.
  destruct (otPosixSecureSettingsDelete_total w aKey (-1)) as [[error w'] ->].
  cbn. destruct error; cbn; repeat (case_match; eauto); eauto.
Qed.

(** ** Names and descriptors *)

(** Opening [/tmp/swap] leaves the file behind the descriptor alone, unless
    the descriptor is on [/tmp/swap] itself. *)
Lemma open_swap_fd w f :
  fd_file w = Some f → swap_path w ≠ sSecureSettingsFd w →
  fd_file (open_swap w).1 = Some f ∧ sSecureSettingsFd w ≠ Some (open_swap w).2.
Proof.
  unfold fd_file, file_of, open_swap. cbn [fst snd inodes sSecureSettingsFd].
  destruct (sSecureSettingsFd w) as [j|]; [|done]. cbn [mbind option_bind].
  intros Hj Hne.
  assert (j ≠ match swap_path w with
              | Some i => i
              | None => fresh (dom (inodes w))
              end) as Hij.
  { destruct (swap_path w) as [i|]; [congruence|].
    intros ->. apply (is_fresh (dom (inodes w))). by apply elem_of_dom. }
  rewrite lookup_insert_ne by done. split; [done|congruence].
Qed.

(** [delete] on a descriptor whose file holds whole records: the settings
    file name is given to the rewritten store, and the descriptor stays on
    the file it was opened on. *)
Lemma delete_on_records w rs aKey aIndex :
  opened_on w rs → Forall fits rs → index_ok aIndex →
  length (encode_store (keep_first aKey (Z.to_nat aIndex) rs)) ≤ swap_room w →
  ∃ w',
    otPosixSecureSettingsDelete w aKey aIndex =
      Some (if decide (Z.to_nat aIndex < length (occurrences aKey rs))
            then OT_ERROR_NONE else OT_ERROR_NOT_FOUND, w') ∧
    store_holds w' (keep_first aKey (Z.to_nat aIndex) rs) ∧
    opened_on w' rs ∧
    sSecureSettingsFd w' = sSecureSettingsFd w ∧
    swap_room w' = swap_room w.
Proof.
  intros [Hfd Hne] Hrs Hidx Hroom.
  destruct (open_swap_fd w _ Hfd Hne) as [Hfd1 Hne1].
  unfold otPosixSecureSettingsDelete.
  destruct (open_swap w) as [w1 i] eqn:Hopen. cbn [fst snd] in Hfd1, Hne1.
  assert (swap_path w1 = Some i ∧ swap_room w1 = swap_room w ∧
          sSecureSettingsFd w1 = sSecureSettingsFd w) as (Hsw & Hrm & Hfdw).
  { unfold open_swap in Hopen. by injection Hopen as <- <-. }
  rewrite Hfd1. cbn [from_option id lseek_end lseek_set].
  rewrite (delete_loop_records _ _ aKey rs Hrs _ []);
    [| done | done | done | done | pose proof (length_encode_store rs); lia
     | rewrite Hrm; simpl; lia ].
  cbn [mbind option_bind renamed status swap_file app].
  eexists. split; [done|].
  unfold rename_swap, set_file. cbn [swap_path]. rewrite Hsw.
  unfold store_holds, opened_on, store_file, fd_file, file_of.
  cbn [inodes settings_path swap_path sSecureSettingsFd swap_room mbind option_bind].
  rewrite lookup_insert_eq. split_and!; try done.
  - unfold fd_file, file_of in Hfd1. rewrite Hfdw in *.
    destruct (sSecureSettingsFd w) as [j|]; [|done]. cbn [mbind option_bind] in *.
    rewrite lookup_insert_ne by congruence. done.
  - rewrite Hfdw. unfold fd_file, file_of in Hfd. by destruct (sSecureSettingsFd w).
Qed.

Lemma written_whole room sw buf :
  written room sw buf = length buf → pwrite room sw buf = sw ++ buf.
Proof.
  unfold written, pwrite. rewrite length_take. intros H.
  by rewrite take_ge by lia.
Qed.

(** A call of [set] that returns has put one record under the settings
    file name. *)
Lemma set_installs w aKey aValue aValueLength error w' :
  otPosixSecureSettingsSet w aKey aValue aValueLength = Some (Returned error w') →
  error = OT_ERROR_NONE ∧
  length (take aValueLength aValue) = aValueLength ∧
  store_file w' = Some (encode_record (aKey, take aValueLength aValue)).
Proof.
  unfold otPosixSecureSettingsSet.
  destruct (otPosixSecureSettingsDelete w aKey (-1)) as [[e w1]|]; [|done].
  cbn [mbind option_bind].
  destruct (open_swap w1) as [w2 i] eqn:Hopen.
  assert (Hsw : swap_path w2 = Some i)
    by (unfold open_swap in Hopen; by injection Hopen as <- <-).
  set (room := swap_room w2). intros H.
  assert (Hok :
    written room [] (u16_bytes aKey) = 2 ∧
    written room (pwrite room [] (u16_bytes aKey)) (u16_bytes aValueLength) = 2 ∧
    written room (pwrite room (pwrite room [] (u16_bytes aKey))
                    (u16_bytes aValueLength)) (take aValueLength aValue)
      = aValueLength ∧
    Returned OT_ERROR_NONE
      (rename_swap (set_file w2 i
         (pwrite room (pwrite room (pwrite room [] (u16_bytes aKey))
                         (u16_bytes aValueLength)) (take aValueLength aValue))))
      = Returned error w').
  { destruct e; try done; cbv zeta in H; fold room in H;
      repeat match type of H with
             | (if negb (?a =? ?b) then _ else _) = _ =>
                 destruct (Nat.eqb_spec a b); cbn [negb] in H; [|done]
             end; by simplify_eq. }
  destruct Hok as (H1 & H2 & H3 & Hret). injection Hret as <- <-.
  assert (Hlen : length (take aValueLength aValue) = aValueLength).
  { unfold written in H3. rewrite !length_take in *. lia. }
  rewrite <-(length_u16_bytes aKey) in H1.
  rewrite <-(length_u16_bytes aValueLength) in H2.
  rewrite <-Hlen in H3 at 3.
  apply written_whole in H1, H2, H3. rewrite H3, H2, H1.
  split_and!; [done..|].
  unfold rename_swap, set_file. cbn [swap_path]. rewrite Hsw.
  unfold store_file, file_of. cbn [inodes settings_path mbind option_bind].
  rewrite lookup_insert_eq. unfold encode_record. cbn [fst snd].
  by rewrite Hlen, <-app_assoc.
Qed.

(** The status of [delete] is the one it starts with or [OT_ERROR_NONE]. *)
Lemma delete_loop_status file size room aKey fuel :
  ∀ offset pos aIndex error buffer sw r,
    delete_loop file size room aKey fuel offset pos aIndex error buffer sw = Some r →
    status r = error ∨ status r = OT_ERROR_NONE.
Proof.
  induction fuel as [|fuel IH]; intros offset pos aIndex error buffer sw r; [done|].
  cbn [delete_loop]. intros H.
  repeat (case_match; simplify_eq; cbn [status]; eauto).
  all: match goal with
       | H : delete_loop _ _ _ _ _ _ _ _ _ _ _ = Some _ |- _ =>
           apply IH in H; destruct H; eauto
       end.
Qed.

Lemma delete_keeps_descriptor w aKey aIndex error w' :
  otPosixSecureSettingsDelete w aKey aIndex = Some (error, w') →
  sSecureSettingsFd w' = sSecureSettingsFd w ∧ swap_room w' = swap_room w ∧
  (error = OT_ERROR_NOT_FOUND ∨ error = OT_ERROR_NONE).
Proof.
  unfold otPosixSecureSettingsDelete, open_swap.
  destruct (delete_loop _ _ _ _ _ _ _ _ _ _ _) as [r|] eqn:Hr; [|done].
  apply delete_loop_status in Hr. cbn. intros [= <- <-].
  split_and!; [by destruct (renamed r)..|done].
Qed.

(** [set] returns when the swap file has room for the record. *)
Lemma set_returns w aKey aValue aValueLength :
  4 + aValueLength ≤ swap_room w → aValueLength ≤ length aValue →
  ∃ w', otPosixSecureSettingsSet w aKey aValue aValueLength =
          Some (Returned OT_ERROR_NONE w').
Proof.
  intros Hroom Hlen. unfold otPosixSecureSettingsSet.
  destruct (otPosixSecureSettingsDelete_total w aKey (-1)) as [[error w1] H].
  rewrite H. apply delete_keeps_descriptor in H as (_ & Hrm & He).
  cbn [mbind option_bind]. unfold open_swap. cbn [swap_room].
  assert (Hv : length (take aValueLength aValue) = aValueLength)
    by (rewrite length_take; lia).
  destruct (written_fits (swap_room w1) [] (u16_bytes aKey)) as [-> ->];
    [rewrite length_u16_bytes; simpl; lia|].
  destruct (written_fits (swap_room w1) ([] ++ u16_bytes aKey)
              (u16_bytes aValueLength)) as [-> ->];
    [rewrite length_app, !length_u16_bytes; simpl; lia|].
  destruct (written_fits (swap_room w1)
              (([] ++ u16_bytes aKey) ++ u16_bytes aValueLength)
              (take aValueLength aValue)) as [-> ->];
    [rewrite !length_app, !length_u16_bytes, Hv; simpl; lia|].
  rewrite !length_u16_bytes, Hv, !Nat.eqb_refl. cbn [negb].
  destruct He as [-> | ->]; eauto.
Qed.

(** A descriptor opened after the store was replaced is on the new store. *)
Lemma reopened w f :
  store_file w = Some f →
  fd_file (otPosixSecureSettingsInit (otPosixSecureSettingsDeinit w)) = Some f.
Proof.
  unfold store_file, fd_file, file_of, otPosixSecureSettingsInit,
    otPosixSecureSettingsDeinit, open_settings, set_fd.
  cbn [settings_path]. by destruct (settings_path w).
Qed.

(** ** The scan of [get] at a malformed tail *)

Lemma get_loop_partial file aKey pre tail fuel offset pos aIndex aValue aValueLength :
  file = pre ++ tail → partial_header tail →
  pos = length pre → offset = Z.of_nat pos → 0 < fuel →
  get_loop file (Z.of_nat (length file)) aKey fuel offset pos aIndex
           aValue aValueLength =
    Some (OT_ERROR_NOT_FOUND, aValue, aValueLength).
Proof.
  intros -> [Hlo Hhi] -> -> Hfuel. destruct fuel as [|fuel]; [lia|].
  cbn [get_loop].
  replace (_ <? _)%Z with true by (symmetry; apply Z.ltb_lt; rewrite length_app; lia).
  cbn [negb]. rewrite pread_skip by done.
  rewrite <-(Nat.add_comm 2), (Nat.add_comm 2), pread_app.
  destruct tail as [|a [|b [|c [|d t]]]]; cbn in *; done || lia.
Qed.

(** At or behind the end of the file the loop is left. *)
Lemma get_loop_end file size aKey fuel offset pos aIndex aValue aValueLength :
  (size ≤ offset)%Z → 0 < fuel →
  get_loop file size aKey fuel offset pos aIndex aValue aValueLength =
    Some (OT_ERROR_NOT_FOUND, aValue, aValueLength).
Proof.
  intros Hend Hfuel. destruct fuel as [|fuel]; [lia|]. cbn [get_loop].
  by replace (_ <? _)%Z with false by (symmetry; apply Z.ltb_ge; lia).
Qed.

Lemma get_loop_overrun file aKey pre tail fuel offset pos aIndex aValue aValueLength :
  file = pre ++ tail → overrun tail →
  pos = length pre → offset = Z.of_nat pos → 1 < fuel →
  (0 ≤ aIndex < 2 ^ 31)%Z →
  get_loop file (Z.of_nat (length file)) aKey fuel offset pos aIndex
           aValue aValueLength =
    if decide (u16_value (pread tail 0 2) = aKey ∧ aIndex = 0%Z)
    then Some (delivered_short (drop 4 tail) (u16_value (pread tail 2 2))
                 aValue aValueLength)
    else Some (OT_ERROR_NOT_FOUND, aValue, aValueLength).
Proof.
  intros -> [Hlen Hover] -> -> Hfuel Hidx.
  destruct fuel as [|fuel]; [lia|].
  set (len := u16_value (pread tail 2 2)) in *.
  cbn [get_loop].
  replace (_ <? _)%Z with true by (symmetry; apply Z.ltb_lt; rewrite length_app; lia).
  cbn [negb]. rewrite pread_skip by done.
  rewrite pread_app. change (take 2 tail) with (pread tail 0 2).
  assert (length (pread tail 0 2) = 2 ∧ length (pread tail 2 2) = 2) as [-> ->].
  { unfold pread. rewrite !length_take, !length_drop. lia. }
  cbn [Nat.eqb negb]. fold len.
  replace (Z.of_nat (length pre) + 4 + Z.of_nat len =?
           Z.of_nat (length pre + 4 + len))%Z with true
    by (symmetry; apply Z.eqb_eq; lia).
  cbn [negb].
  rewrite !get_loop_end by (rewrite ?length_app; lia).
  destruct (Nat.eqb_spec (u16_value (pread tail 0 2)) aKey) as [Hk|Hk];
    [destruct (Z.eqb_spec aIndex 0) as [Hi|Hi]|].
  - rewrite decide_True by done. unfold delivered_short.
    destruct aValueLength as [capacity|]; [|done].
    destruct aValue as [buffer|]; [|done].
    rewrite pread_app. unfold pread.
    assert (length (drop 4 tail) < len) by (rewrite length_drop; lia).
    destruct (Nat.leb_spec len capacity), (Nat.ltb_spec (length (drop 4 tail)) capacity);
      try lia.
    + rewrite take_ge by lia.
      replace (_ =? _) with false by (symmetry; apply Nat.eqb_neq; lia). done.
    + rewrite take_ge by lia.
      replace (_ =? _) with false by (symmetry; apply Nat.eqb_neq; lia). done.
    + rewrite length_take_le, Nat.eqb_refl by lia. done.
  - rewrite decide_False by tauto. done.
  - rewrite decide_False by tauto. done.
Qed.

(** [get] has two statuses, whatever the file holds. *)
Lemma get_loop_status file size aKey fuel :
  ∀ offset pos aIndex aValue aValueLength r,
    get_loop file size aKey fuel offset pos aIndex aValue aValueLength = Some r →
    r.1.1 = OT_ERROR_NONE ∨ r.1.1 = OT_ERROR_NOT_FOUND.
Proof.
  induction fuel as [|fuel IH]; intros offset pos aIndex aValue aValueLength r;
    [done|].
  cbn [get_loop]. intros H.
  repeat (case_match; simplify_eq; cbn [fst]; eauto).
Qed.

(** On whole records followed by a tail, [get] delivers the occurrence it
    finds among the records, or goes on at the tail. *)
Lemma get_reaches_tail w rs tail aKey aIndex aValue aValueLength :
  fd_file w = Some (encode_store rs ++ tail) → Forall fits rs →
  (0 ≤ aIndex < 2 ^ 31)%Z →
  let file := encode_store rs ++ tail in
  otPosixSecureSettingsGet w aKey aIndex aValue aValueLength =
    match occurrences aKey rs !! Z.to_nat aIndex with
    | Some r => Some (delivered r.2 aValue aValueLength)
    | None =>
        get_loop file (Z.of_nat (length file)) aKey (S (length file) - length rs)
          (Z.of_nat (length (encode_store rs))) (length (encode_store rs))
          (aIndex - Z.of_nat (length (occurrences aKey rs))) aValue aValueLength
    end.
Proof.
  intros Hfd Hrs Hidx file. unfold otPosixSecureSettingsGet. rewrite Hfd.
  cbn [from_option lseek_end lseek_set id]. change (Z.of_nat 0) with 0%Z.
  fold file.
  assert (length rs ≤ length file).
  { pose proof (length_encode_store rs). unfold file. rewrite length_app. lia. }
  replace (S (length file)) with (length rs + (S (length file) - length rs))
    at 1 by lia.
  by rewrite (get_loop_records _ _ rs tail _ _ Hrs _ []).
Qed.

(** ** What [keep_first] keeps *)

Lemma others_cons aKey r rs :
  others aKey (r :: rs) =
    if decide (r.1 = aKey) then others aKey rs else r :: others aKey rs.
Proof.
  unfold others. rewrite filter_cons. by repeat case_decide.
Qed.

(** Its occurrences of the key are the first [k] of the store, in order. *)
Lemma occurrences_keep_first aKey rs :
  ∀ k, occurrences aKey (keep_first aKey k rs) = take k (occurrences aKey rs).
Proof.
  induction rs as [|r rs IH]; intros k; [by destruct k|].
  cbn [keep_first]. rewrite (occurrences_cons _ r rs). case_decide.
  - destruct k as [|k]; [by rewrite IH|].
    rewrite occurrences_cons, decide_True, IH by done. done.
  - by rewrite occurrences_cons, decide_False, IH by done.
Qed.

(** The records of the other keys are all kept, in order. *)
Lemma others_keep_first aKey rs :
  ∀ k, others aKey (keep_first aKey k rs) = others aKey rs.
Proof.
  induction rs as [|r rs IH]; intros k; [done|].
  cbn [keep_first]. rewrite (others_cons _ r rs). case_decide.
  - destruct k as [|k]; [by rewrite IH|].
    rewrite others_cons, decide_True, IH by done. done.
  - by rewrite others_cons, decide_False, IH by done.
Qed.

(** Nothing is added or reordered. *)
Lemma keep_first_sublist aKey rs : ∀ k, keep_first aKey k rs `sublist_of` rs.
Proof.
  induction rs as [|r rs IH]; intros k; [done|].
  cbn [keep_first]. case_decide; [destruct k|];
    (by apply sublist_skip) || (by apply sublist_cons).
Qed.

Lemma keep_first_0 aKey rs : keep_first aKey 0 rs = others aKey rs.
Proof.
  induction rs as [|r rs IH]; [done|].
  cbn [keep_first]. rewrite others_cons, IH. by case_decide.
Qed.

Lemma occurrences_key aKey rs r : r ∈ occurrences aKey rs → r.1 = aKey.
Proof. unfold occurrences. rewrite list_elem_of_filter. tauto. Qed.


Lemma keep_first_fits aKey rs : ∀ k, Forall fits rs → Forall fits (keep_first aKey k rs).
Proof.
  induction rs as [|r rs IH]; intros k Hrs; [done|].
  apply Forall_cons in Hrs as [Hr Hrs]. cbn [keep_first].
  case_decide; [destruct k|]; auto.
Qed.

(** [delete] and a [get] that follows it. The store under the settings file
    name is rewritten, but [get] reads through [sSecureSettingsFd], which
    [delete] leaves on the file it was opened on: [get] answers from the
    store as it was before the call, until the descriptor is opened again. *)
Lemma delete_then_get w rs aKey aIndex :
  opened_on w rs → Forall fits rs → index_ok aIndex →
  length (encode_store (keep_first aKey (Z.to_nat aIndex) rs)) ≤ swap_room w →
  ∃ error w',
    otPosixSecureSettingsDelete w aKey aIndex = Some (error, w') ∧
    store_holds w' (keep_first aKey (Z.to_nat aIndex) rs) ∧
    (∀ i aValue aValueLength,
       (0 ≤ i < 2 ^ 31)%Z →
       otPosixSecureSettingsGet w' aKey i aValue aValueLength =
         otPosixSecureSettingsGet w aKey i aValue aValueLength) ∧
    (∀ i aValue aValueLength,
       (0 ≤ i < 2 ^ 31)%Z →
       otPosixSecureSettingsGet
         (otPosixSecureSettingsInit (otPosixSecureSettingsDeinit w')) aKey i
         aValue aValueLength =
         match take (Z.to_nat aIndex) (occurrences aKey rs) !! Z.to_nat i with
         | Some r => Some (delivered r.2 aValue aValueLength)
         | None => Some (OT_ERROR_NOT_FOUND, aValue, aValueLength)
         end).
Proof.
  intros Hw Hrs Hidx Hroom.
  destruct (delete_on_records w rs aKey aIndex Hw Hrs Hidx Hroom)
    as (w' & H & Hst & [Hfd' _] & _).
  eexists _, w'. split_and!; [exact H | done | |].
  - intros i aValue aValueLength Hi. destruct Hw as [Hfd _].
    by rewrite (get_on_records w' rs), (get_on_records w rs).
  - intros i aValue aValueLength Hi.
    rewrite (get_on_records _ (keep_first aKey (Z.to_nat aIndex) rs));
      [| by apply reopened | by apply keep_first_fits | done].
    by rewrite occurrences_keep_first.
Qed.

(** A call of [delete] that leaves through [exit] has not renamed:
    [/tmp/swap] still has its name, and the settings file is as it was. *)
Lemma delete_exit_keeps_store w aKey aIndex error w' :
  otPosixSecureSettingsDelete w aKey aIndex = Some (error, w') →
  is_Some (swap_path w') →
  is_Some (store_file w) → swap_path w ≠ settings_path w →
  store_file w' = store_file w.
Proof.
  unfold otPosixSecureSettingsDelete, open_swap.
  destruct (delete_loop _ _ _ _ _ _ _ _ _ _ _) as [r|]; [|done].
  cbn [mbind option_bind]. intros [= <- <-].
  destruct (renamed r).
  { unfold rename_swap, set_file. cbn. by intros [? ?]. }
  intros _ [f Hf] Hne. unfold store_file, file_of, set_file in *.
  cbn [inodes settings_path] in *.
  destruct (settings_path w) as [j|]; [|done]. cbn [mbind option_bind] in *.
  assert (match swap_path w with
          | Some i => i
          | None => fresh (dom (inodes w))
          end ≠ j) as Hij.
  { destruct (swap_path w) as [i|]; [congruence|].
    intros <-. apply (is_fresh (dom (inodes w))). apply elem_of_dom. eauto. }
  by rewrite !lookup_insert_ne.
Qed.

(** ** The claims *)

(** C1. Every call of [set] that returns, and so every call of [add],
    leaves a store that consists of exactly one record, the one just
    written: whatever the store held under other keys is gone. *)
Theorem set_replaces_store w aKey aValue aValueLength error w' :
  otPosixSecureSettingsSet w aKey aValue aValueLength = Some (Returned error w') →
  error = OT_ERROR_NONE ∧
  store_holds w' [(aKey, take aValueLength aValue)] ∧
  length (take aValueLength aValue) = aValueLength ∧
  otPosixSecureSettingsAdd w aKey aValue aValueLength = Some (Returned error w').
Proof.
  intros H. destruct (set_installs _ _ _ _ _ _ H) as (He & Hlen & Hst).
  split_and!; try done.
  unfold store_holds, encode_store. cbn. by rewrite app_nil_r.
Qed.

(** C6. On a store of whole records, [get] of an occurrence whose value has
    [L] bytes into a buffer of capacity [C] copies the first [C] bytes of the
    value when [C < L], and all [L] bytes otherwise; in both cases it reports
    [L] through the length. *)
Theorem get_truncates w rs aKey aIndex v buffer capacity :
  fd_file w = Some (encode_store rs) → Forall fits rs →
  (0 ≤ aIndex < 2 ^ 31)%Z →
  occurrences aKey rs !! Z.to_nat aIndex = Some (aKey, v) →
  otPosixSecureSettingsGet w aKey aIndex (Some buffer) (Some capacity) =
    Some (OT_ERROR_NONE,
          Some (if capacity <? length v
                then take capacity v ++ drop capacity buffer
                else v ++ drop (length v) buffer),
          Some (length v)).
Proof.
  intros Hfd Hrs Hidx Hocc.
  rewrite (get_on_records w rs) by done. rewrite Hocc.
  unfold delivered, fill. cbn [snd]. do 3 f_equal.
  destruct (Nat.ltb_spec capacity (length v)).
  - by rewrite length_take_le by lia.
  - by rewrite take_ge by lia.
Qed.

(** C7. A call of [set] with a key and a value of up to 65535 bytes, when
    [/tmp/swap] has room for the record, returns [OT_ERROR_NONE] and leaves
    under the settings file name the four header bytes and the value. The
    reads of the scan on that file give back the key, the length and the
    value, and [get] on a descriptor opened on it, as the one [init] opens
    after [deinit], delivers the value and its length. *)
Theorem record_round_trip w aKey v :
  fits (aKey, v) → 4 + length v ≤ swap_room w →
  ∃ w' file,
    otPosixSecureSettingsSet w aKey v (length v) =
      Some (Returned OT_ERROR_NONE w') ∧
    store_file w' = Some file ∧
    fd_file (reopen w') = Some file ∧
    length file = 4 + length v ∧
    u16_value (pread file 0 2) = aKey ∧
    u16_value (pread file 2 2) = length v ∧
    pread file 4 (length v) = v ∧
    ∀ w'' buffer capacity,
      fd_file w'' = Some file → length v ≤ capacity →
      otPosixSecureSettingsGet w'' aKey 0 (Some buffer) (Some capacity) =
        Some (OT_ERROR_NONE, Some (v ++ drop (length v) buffer), Some (length v)).
Proof.
  intros [Hk Hl] Hroom. cbn [fst snd] in Hk, Hl.
  destruct (set_returns w aKey v (length v)) as [w' Hset]; [done..|].
  destruct (set_installs _ _ _ _ _ _ Hset) as (_ & _ & Hst).
  rewrite firstn_all in Hst.
  exists w', (encode_record (aKey, v)).
  destruct (pread_record [] (aKey, v) [] (encode_record (aKey, v)) 0)
    as (H1 & H2 & H3); [by rewrite app_nil_r | done |].
  cbn [fst snd Nat.add] in *. rewrite H1, H2, H3, !u16_value_bytes by done.
  split_and!; try done.
  - by apply reopened.
  - by rewrite length_encode_record.
  - by rewrite app_nil_r, take_ge.
  - intros w'' buffer capacity Hfd Hcap.
    rewrite (get_on_records w'' [(aKey, v)]);
      [| by rewrite Hfd; unfold encode_store; cbn; rewrite app_nil_r
       | by constructor; [split|constructor] | done ].
    rewrite occurrences_cons, decide_True by done.
    change (Z.to_nat 0) with 0. cbn [lookup list_lookup snd].
    unfold delivered, fill. cbn [snd]. by rewrite take_ge by lia.
Qed.


(** C5, amended. On a store of whole records, when [/tmp/swap] has room
    for what is kept, [delete] returns [OT_ERROR_NONE] exactly when the store
    holds an occurrence of the key at the index it is given, that is more
    than [max aIndex 0] occurrences, and [OT_ERROR_NOT_FOUND] otherwise; so
    it returns [OT_ERROR_NOT_FOUND] when no record has the key. *)
Theorem delete_status w rs aKey aIndex :
  opened_on w rs → Forall fits rs → index_ok aIndex →
  length (encode_store (keep_first aKey (Z.to_nat aIndex) rs)) ≤ swap_room w →
  ∃ error w',
    otPosixSecureSettingsDelete w aKey aIndex = Some (error, w') ∧
    (error = OT_ERROR_NONE ∨ error = OT_ERROR_NOT_FOUND) ∧
    (error = OT_ERROR_NONE ↔
       (Z.max aIndex 0 < Z.of_nat (length (occurrences aKey rs)))%Z) ∧
    (occurrences aKey rs = [] → error = OT_ERROR_NOT_FOUND).
Proof.
  intros Hw Hrs Hidx Hroom.
  destruct (delete_on_records w rs aKey aIndex Hw Hrs Hidx Hroom)
    as (w' & H & _).
  eexists _, w'. split; [exact H|].
  case_decide as Hc.
  - split_and!; [by left | | ].
    + split; [|done]. intros _. destruct Hidx; lia.
    + intros Hnil. rewrite Hnil in Hc. simpl in Hc. lia.
  - split_and!; [by right | | done].
    split; [done|]. intros Hlt. destruct Hidx; lia.
Qed.

(** C9. When whole records are followed by a malformed tail, a header cut
    short or a header whose length overruns the file, [get] reads the
    records before the tail as if the tail were not there, and returns
    [OT_ERROR_NOT_FOUND], leaving buffer and length alone, for every
    occurrence that is neither among the whole records nor announced by the
    header at the malformed point. The occurrence that an overrunning header
    announces is found: [get] returns [OT_ERROR_NONE] for it although it
    lies at the malformed point. No other status than [OT_ERROR_NONE] and
    [OT_ERROR_NOT_FOUND] is returned. *)
Theorem get_malformed_tail w rs tail aKey aIndex aValue aValueLength :
  fd_file w = Some (encode_store rs ++ tail) → Forall fits rs →
  malformed tail → (0 ≤ aIndex < 2 ^ 31)%Z →
  (∀ r, occurrences aKey rs !! Z.to_nat aIndex = Some r →
     otPosixSecureSettingsGet w aKey aIndex aValue aValueLength =
       Some (delivered r.2 aValue aValueLength)) ∧
  (length (occurrences aKey rs) ≤ Z.to_nat aIndex →
   ¬ (overrun tail ∧ u16_value (pread tail 0 2) = aKey ∧
      length (occurrences aKey rs) = Z.to_nat aIndex) →
     otPosixSecureSettingsGet w aKey aIndex aValue aValueLength =
       Some (OT_ERROR_NOT_FOUND, aValue, aValueLength)) ∧
  (overrun tail → u16_value (pread tail 0 2) = aKey →
   length (occurrences aKey rs) = Z.to_nat aIndex →
     ∃ b l, otPosixSecureSettingsGet w aKey aIndex aValue aValueLength =
              Some (OT_ERROR_NONE, b, l)) ∧
  (∃ r, otPosixSecureSettingsGet w aKey aIndex aValue aValueLength = Some r ∧
     (r.1.1 = OT_ERROR_NONE ∨ r.1.1 = OT_ERROR_NOT_FOUND)).
Proof.
  intros Hfd Hrs Hbad Hidx. split_and!.
  - intros r Hr. by rewrite (get_reaches_tail w rs tail), Hr.
  - intros Hcount Hnot. rewrite (get_reaches_tail w rs tail) by done.
    rewrite (proj2 (lookup_ge_None _ _)) by done.
    pose proof (length_encode_store rs) as Hlen.
    destruct Hbad as [Hpart|Hover].
    + apply (get_loop_partial _ _ (encode_store rs) tail); try done.
      rewrite length_app. destruct Hpart. lia.
    + rewrite (get_loop_overrun _ _ (encode_store rs) tail); try done.
      * rewrite decide_False; [done|]. intros [Hk Hz]. apply Hnot. split_and!; [done..|lia].
      * rewrite length_app. destruct Hover. lia.
      * lia.
  - intros Hover Hk Hcount. rewrite (get_reaches_tail w rs tail) by done.
    rewrite (proj2 (lookup_ge_None _ _)) by (apply Nat.eq_le_incl, Hcount).
    pose proof (length_encode_store rs) as Hlen.
    rewrite (get_loop_overrun _ _ (encode_store rs) tail); try done.
    + rewrite decide_True by (split; [done|lia]).
      unfold delivered_short.
      destruct aValueLength as [capacity|]; [|by eexists _, _].
      destruct aValue as [buffer|]; [|by eexists _, _].
      destruct (_ <? _); by eexists _, _.
    + rewrite length_app. destruct Hover. lia.
    + lia.
  - destruct (otPosixSecureSettingsGet_total w aKey aIndex aValue aValueLength)
      as [r Hr].
    exists r. split; [done|]. revert Hr.
    unfold otPosixSecureSettingsGet. apply get_loop_status.
Qed.

(** C10, amended. When the occurrence asked for is the last record of the
    file and its header declares more bytes than the file has left, [get]
    with a buffer returns [OT_ERROR_NONE]. If the capacity is larger than
    the number of bytes left, the buffer receives those bytes and the length
    keeps the capacity the caller put there. If the capacity is at most that
    number, the buffer receives [capacity] bytes and the length is set to
    the length the header declares. *)
Theorem get_overrun_record w rs tail aKey aIndex buffer capacity :
  fd_file w = Some (encode_store rs ++ tail) → Forall fits rs →
  overrun tail → u16_value (pread tail 0 2) = aKey →
  (0 ≤ aIndex < 2 ^ 31)%Z →
  length (occurrences aKey rs) = Z.to_nat aIndex →
  otPosixSecureSettingsGet w aKey aIndex (Some buffer) (Some capacity) =
    Some (if length (drop 4 tail) <? capacity
          then (OT_ERROR_NONE, Some (fill buffer (drop 4 tail)), Some capacity)
          else (OT_ERROR_NONE, Some (fill buffer (take capacity (drop 4 tail))),
                Some (u16_value (pread tail 2 2)))).
Proof.
  intros Hfd Hrs Hover Hk Hidx Hcount.
  rewrite (get_reaches_tail w rs tail) by done.
  rewrite (proj2 (lookup_ge_None _ _)) by apply Nat.eq_le_incl, Hcount.
  pose proof (length_encode_store rs) as Hlen.
  rewrite (get_loop_overrun _ _ (encode_store rs) tail); try done.
  - rewrite decide_True by (split; [done|lia]). done.
  - rewrite length_app. destruct Hover. lia.
  - lia.
Qed.
(** ** What the descriptor sees *)

(** [get] reads nothing but the file behind the descriptor. *)
Lemma get_reads_fd w w' aKey aIndex aValue aValueLength :
  fd_file w' = fd_file w →
  otPosixSecureSettingsGet w' aKey aIndex aValue aValueLength =
  otPosixSecureSettingsGet w aKey aIndex aValue aValueLength.
Proof. unfold otPosixSecureSettingsGet. by intros ->. Qed.

(** Writing [/tmp/swap] anew, and renaming it, leaves the descriptor on its
    file. *)
Lemma swap_frame w sw :
  descriptor_ok w →
  let w2 := set_file (open_swap w).1 (open_swap w).2 sw in
  (descriptor_ok w2 ∧ fd_file w2 = fd_file w) ∧
  (descriptor_ok (rename_swap w2) ∧ fd_file (rename_swap w2) = fd_file w).
Proof.
  intros Hok. unfold open_swap, rename_swap, set_file, descriptor_ok, fd_file, file_of.
  cbn [fst snd inodes swap_path sSecureSettingsFd settings_path].
  set (i := match swap_path w with
            | Some i => i
            | None => fresh (dom (inodes w))
            end).
  assert (Hi : ∀ j, sSecureSettingsFd w = Some j → i ≠ j).
  { intros j Hj. destruct (Hok j Hj) as [Hin Hne]. unfold i.
    destruct (swap_path w) as [i'|]; [congruence|].
    intros Hf. apply (is_fresh (dom (inodes w))). rewrite Hf. by apply elem_of_dom. }
  assert (Hl : ∀ j, sSecureSettingsFd w = Some j →
            <[i:=sw]> (<[i:=[]]> (inodes w)) !! j = inodes w !! j).
  { intros j Hj. by rewrite !lookup_insert_ne by by apply Hi. }
  split_and!.
  - intros j Hj. rewrite (Hl j Hj). split; [by apply Hok|].
    intros [= ->]. by apply (Hi j).
  - destruct (sSecureSettingsFd w) as [j|] eqn:Hj; [|done]. by apply Hl.
  - intros j Hj. cbn in Hj. rewrite (Hl j Hj). split; [by apply Hok|done].
  - cbn. destruct (sSecureSettingsFd w) as [j|] eqn:Hj; [|done]. by apply Hl.
Qed.

Lemma delete_frame w aKey aIndex error w' :
  descriptor_ok w →
  otPosixSecureSettingsDelete w aKey aIndex = Some (error, w') →
  descriptor_ok w' ∧ fd_file w' = fd_file w.
Proof.
  intros Hok. unfold otPosixSecureSettingsDelete.
  destruct (open_swap w) as [w1 i] eqn:Hopen.
  destruct (delete_loop _ _ _ _ _ _ _ _ _ _ _) as [r|]; [|done].
  cbn [mbind option_bind]. intros [= <- <-].
  pose proof (swap_frame w (swap_file r) Hok) as H. rewrite Hopen in H.
  cbn [fst snd] in H. destruct H as [H1 H2]. by destruct (renamed r).
Qed.

Lemma set_frame w aKey aValue aValueLength o :
  descriptor_ok w →
  otPosixSecureSettingsSet w aKey aValue aValueLength = Some o →
  descriptor_ok (world_of o) ∧ fd_file (world_of o) = fd_file w.
Proof.
  intros Hok. unfold otPosixSecureSettingsSet.
  destruct (otPosixSecureSettingsDelete w aKey (-1)) as [[e w1]|] eqn:Hd; [|done].
  destruct (delete_frame _ _ _ _ _ Hok Hd) as [Hok1 Hfd1].
  cbn [mbind option_bind].
  destruct (open_swap w1) as [w2 i] eqn:Hopen.
  assert (Hf : ∀ sw,
    let w3 := set_file w2 i sw in
    (descriptor_ok w3 ∧ fd_file w3 = fd_file w) ∧
    (descriptor_ok (rename_swap w3) ∧ fd_file (rename_swap w3) = fd_file w)).
  { intros sw. pose proof (swap_frame w1 sw Hok1) as H. rewrite Hopen in H.
    cbn [fst snd] in H. by rewrite <-Hfd1. }
  destruct e; cbv zeta;
    repeat (case_match; try done); intros [= <-]; cbn [world_of];
    try apply Hf; done.
Qed.

(** ** Further properties of [get] *)

Lemma get_loop_untouched file size aKey fuel :
  ∀ offset pos aIndex aValue aValueLength b l,
    get_loop file size aKey fuel offset pos aIndex aValue aValueLength =
      Some (OT_ERROR_NOT_FOUND, b, l) →
    b = aValue ∧ l = aValueLength.
Proof.
  induction fuel as [|fuel IH]; intros offset pos aIndex aValue aValueLength b l;
    [done|].
  cbn [get_loop]. intros H.
  repeat (case_match; simplify_eq; eauto).
Qed.

Lemma get_loop_no_length file size aKey fuel :
  ∀ offset pos aIndex aValue r,
    get_loop file size aKey fuel offset pos aIndex aValue None = Some r →
    r.1.2 = aValue ∧ r.2 = None.
Proof.
  induction fuel as [|fuel IH]; intros offset pos aIndex aValue r; [done|].
  cbn [get_loop]. intros H.
  repeat (case_match; simplify_eq; cbn [fst snd]; eauto).
Qed.

(** X1. Whatever bytes the file behind the descriptor holds, [get] comes to
    an end with [OT_ERROR_NONE] or [OT_ERROR_NOT_FOUND], and when it returns
    [OT_ERROR_NOT_FOUND] it has written neither to the buffer nor to the
    length. *)
Theorem get_status_and_outputs w aKey aIndex aValue aValueLength :
  ∃ error b l,
    otPosixSecureSettingsGet w aKey aIndex aValue aValueLength = Some (error, b, l) ∧
    (error = OT_ERROR_NONE ∨
     (error = OT_ERROR_NOT_FOUND ∧ b = aValue ∧ l = aValueLength)).
Proof.
  destruct (otPosixSecureSettingsGet_total w aKey aIndex aValue aValueLength)
    as [[[error b] l] H].
  exists error, b, l. split; [done|].
  unfold otPosixSecureSettingsGet in H.
  destruct (get_loop_status _ _ _ _ _ _ _ _ _ _ H) as [He|He]; cbn in He; subst.
  - by left.
  - right. split; [done|]. by eapply get_loop_untouched.
Qed.

(** X2. Without a length pointer [get] copies nothing, whatever the file
    holds and whether or not a buffer is passed: the call only tells whether
    the occurrence is there. *)
Theorem get_without_length_pointer w aKey aIndex aValue :
  ∃ error,
    otPosixSecureSettingsGet w aKey aIndex aValue None = Some (error, aValue, None) ∧
    (error = OT_ERROR_NONE ∨ error = OT_ERROR_NOT_FOUND).
Proof.
  destruct (otPosixSecureSettingsGet_total w aKey aIndex aValue None)
    as [[[error b] l] H].
  exists error. unfold otPosixSecureSettingsGet in *.
  destruct (get_loop_no_length _ _ _ _ _ _ _ _ _ H) as [Hb Hl].
  pose proof (get_loop_status _ _ _ _ _ _ _ _ _ _ H) as He.
  cbn in Hb, Hl, He. by subst.
Qed.

(** X3. On a store of whole records [get] returns [OT_ERROR_NOT_FOUND], with
    buffer and length untouched, when the key has no occurrence at the
    index: for a key that is not in the store, for an index at or behind the
    number of its occurrences, and for every key on an empty store. *)
Theorem get_missing_occurrence w rs aKey aIndex aValue aValueLength :
  fd_file w = Some (encode_store rs) → Forall fits rs →
  (0 ≤ aIndex < 2 ^ 31)%Z →
  length (occurrences aKey rs) ≤ Z.to_nat aIndex →
  otPosixSecureSettingsGet w aKey aIndex aValue aValueLength =
    Some (OT_ERROR_NOT_FOUND, aValue, aValueLength).
Proof.
  intros Hfd Hrs Hidx Hcount. rewrite (get_on_records w rs) by done.
  by rewrite (proj2 (lookup_ge_None _ _)) by done.
Qed.

(** X4. When the descriptor is not open, before [init] or after [deinit],
    [get] returns [OT_ERROR_NOT_FOUND] for every key and index and writes
    nothing: both [lseek]s return -1 and the loop is not entered. *)
Theorem get_on_closed_descriptor w aKey aIndex aValue aValueLength :
  sSecureSettingsFd w = None →
  otPosixSecureSettingsGet w aKey aIndex aValue aValueLength =
    Some (OT_ERROR_NOT_FOUND, aValue, aValueLength).
Proof.
  intros Hfd. unfold otPosixSecureSettingsGet, fd_file. by rewrite Hfd.
Qed.

(** ** Further properties of [set] *)

(** The three writes of [set], by the room [/tmp/swap] has. *)
Lemma set_after_delete w aKey aValue aValueLength error w1 :
  otPosixSecureSettingsDelete w aKey (-1) = Some (error, w1) →
  aValueLength ≤ length aValue →
  (4 + aValueLength ≤ swap_room w →
   otPosixSecureSettingsSet w aKey aValue aValueLength =
     Some (Returned OT_ERROR_NONE
             (rename_swap (set_file (open_swap w1).1 (open_swap w1).2
                (encode_record (aKey, take aValueLength aValue)))))) ∧
  (swap_room w < 4 + aValueLength →
   ∃ sw, otPosixSecureSettingsSet w aKey aValue aValueLength =
           Some (Terminated (set_file (open_swap w1).1 (open_swap w1).2 sw))).
Proof.
  intros Hd Hlen. unfold otPosixSecureSettingsSet. rewrite Hd.
  apply delete_keeps_descriptor in Hd as (_ & Hrm & He).
  cbn [mbind option_bind].
  destruct (open_swap w1) as [w2 i] eqn:Hopen. cbn [fst snd].
  assert (Hrm2 : swap_room w2 = swap_room w)
    by (unfold open_swap in Hopen; injection Hopen as <- <-; done).
  rewrite Hrm2.
  assert (Hv : length (take aValueLength aValue) = aValueLength)
    by (rewrite length_take; lia).
  split.
  - intros Hroom.
    destruct (written_fits (swap_room w) [] (u16_bytes aKey)) as [-> ->];
      [rewrite length_u16_bytes; simpl; lia|].
    destruct (written_fits (swap_room w) ([] ++ u16_bytes aKey)
                (u16_bytes aValueLength)) as [-> ->];
      [rewrite length_app, !length_u16_bytes; simpl; lia|].
    destruct (written_fits (swap_room w)
                (([] ++ u16_bytes aKey) ++ u16_bytes aValueLength)
                (take aValueLength aValue)) as [-> ->];
      [rewrite !length_app, !length_u16_bytes, Hv; simpl; lia|].
    rewrite !length_u16_bytes, Hv, !Nat.eqb_refl. cbn [negb].
    unfold encode_record. cbn [fst snd app]. rewrite Hv, <-app_assoc.
    by destruct He as [-> | ->].
  - intros Hroom.
    assert (∃ sw,
      (if negb (written (swap_room w) [] (u16_bytes aKey) =? 2)
       then Some (Terminated (set_file w2 i (pwrite (swap_room w) [] (u16_bytes aKey))))
       else
        if negb (written (swap_room w) (pwrite (swap_room w) [] (u16_bytes aKey))
                   (u16_bytes aValueLength) =? 2)
        then Some (Terminated (set_file w2 i
               (pwrite (swap_room w) (pwrite (swap_room w) [] (u16_bytes aKey))
                  (u16_bytes aValueLength))))
        else
         if negb (written (swap_room w)
                    (pwrite (swap_room w) (pwrite (swap_room w) [] (u16_bytes aKey))
                       (u16_bytes aValueLength)) (take aValueLength aValue)
                  =? aValueLength)
         then Some (Terminated (set_file w2 i
                (pwrite (swap_room w)
                   (pwrite (swap_room w) (pwrite (swap_room w) [] (u16_bytes aKey))
                      (u16_bytes aValueLength)) (take aValueLength aValue))))
         else Some (Returned OT_ERROR_NONE (rename_swap (set_file w2 i
                (pwrite (swap_room w)
                   (pwrite (swap_room w) (pwrite (swap_room w) [] (u16_bytes aKey))
                      (u16_bytes aValueLength)) (take aValueLength aValue))))))
      = Some (Terminated (set_file w2 i sw))) as [sw Hsw].
    { destruct (Nat.eqb_spec (written (swap_room w) [] (u16_bytes aKey)) 2)
        as [H1|H1]; cbn [negb]; [|eauto].
      destruct (Nat.eqb_spec
                  (written (swap_room w) (pwrite (swap_room w) [] (u16_bytes aKey))
                     (u16_bytes aValueLength)) 2) as [H2|H2]; cbn [negb]; [|eauto].
      destruct (Nat.eqb_spec
                  (written (swap_room w)
                     (pwrite (swap_room w) (pwrite (swap_room w) [] (u16_bytes aKey))
                        (u16_bytes aValueLength)) (take aValueLength aValue))
                  aValueLength) as [H3|H3]; cbn [negb]; [|eauto].
      exfalso. unfold written, pwrite in H1, H2, H3.
      rewrite ?length_take, ?length_app, ?length_take, ?length_u16_bytes, ?Hv in *.
      cbn [length] in *. lia. }
    exists sw. by destruct He as [-> | ->].
Qed.

(** Writing [/tmp/swap] anew leaves the settings file alone when [/tmp/swap]
    had no name before. *)
Lemma swap_write_keeps_store w sw :
  swap_path w = None → is_Some (store_file w) →
  store_file (set_file (open_swap w).1 (open_swap w).2 sw) = store_file w.
Proof.
  unfold store_file, file_of, set_file, open_swap.
  cbn [fst snd inodes settings_path]. intros -> [f Hf].
  destruct (settings_path w) as [j|]; [|done]. cbn [mbind option_bind] in *.
  assert (fresh (dom (inodes w)) ≠ j).
  { intros <-. apply (is_fresh (dom (inodes w))). apply elem_of_dom. eauto. }
  by rewrite !lookup_insert_ne.
Qed.

(** [delete] over whole records reaches its [rename]. *)
Lemma delete_on_records_renamed w rs aKey aIndex :
  opened_on w rs → Forall fits rs → index_ok aIndex →
  length (encode_store (keep_first aKey (Z.to_nat aIndex) rs)) ≤ swap_room w →
  ∃ w',
    otPosixSecureSettingsDelete w aKey aIndex =
      Some (if decide (Z.to_nat aIndex < length (occurrences aKey rs))
            then OT_ERROR_NONE else OT_ERROR_NOT_FOUND, w') ∧
    swap_path w' = None ∧
    store_holds w' (keep_first aKey (Z.to_nat aIndex) rs).
Proof.
  intros [Hfd Hne] Hrs Hidx Hroom.
  destruct (open_swap_fd w _ Hfd Hne) as [Hfd1 Hne1].
  unfold otPosixSecureSettingsDelete.
  destruct (open_swap w) as [w1 i] eqn:Hopen. cbn [fst snd] in Hfd1, Hne1.
  assert (swap_path w1 = Some i ∧ swap_room w1 = swap_room w) as (Hsw & Hrm).
  { unfold open_swap in Hopen. by injection Hopen as <- <-. }
  rewrite Hfd1. cbn [from_option id lseek_end lseek_set].
  rewrite (delete_loop_records _ _ aKey rs Hrs _ []);
    [| done | done | done | done | pose proof (length_encode_store rs); lia
     | rewrite Hrm; simpl; lia ].
  cbn [mbind option_bind renamed status swap_file app].
  eexists. split; [done|].
  unfold rename_swap, set_file. cbn [swap_path]. rewrite Hsw.
  unfold store_holds, store_file, file_of.
  cbn [inodes settings_path swap_path mbind option_bind].
  by rewrite lookup_insert_eq.
Qed.

(** X5. [set] returns no status but [OT_ERROR_NONE]: either it returns that,
    which it does exactly when [/tmp/swap] has room for the four header
    bytes and the value, or it ends the process. *)
Theorem set_returns_or_dies w aKey aValue aValueLength :
  aValueLength ≤ length aValue →
  ∃ o,
    otPosixSecureSettingsSet w aKey aValue aValueLength = Some o ∧
    ((4 + aValueLength ≤ swap_room w ∧ ∃ w', o = Returned OT_ERROR_NONE w') ∨
     (swap_room w < 4 + aValueLength ∧ ∃ w', o = Terminated w')).
Proof.
  intros Hlen.
  destruct (otPosixSecureSettingsDelete_total w aKey (-1)) as [[error w1] Hd].
  destruct (set_after_delete w aKey aValue aValueLength error w1 Hd Hlen)
    as [Hfit Hshort].
  destruct (le_lt_dec (4 + aValueLength) (swap_room w)) as [Hroom|Hroom].
  - eexists. split; [by apply Hfit|]. left. eauto.
  - destruct (Hshort Hroom) as [sw Hsw]. eexists. split; [exact Hsw|]. right. eauto.
Qed.

(** X6. [set] is not all or nothing. On a store of whole records, when
    [/tmp/swap] has room for the records of the other keys but not for the
    new record, [set] ends the process after its [delete] was installed: the
    store is left with the records of the other keys, without the old
    records of the key and without the new one. *)
Theorem set_failure_loses_key w rs aKey aValue aValueLength :
  opened_on w rs → Forall fits rs →
  aValueLength ≤ length aValue →
  length (encode_store (others aKey rs)) ≤ swap_room w →
  swap_room w < 4 + aValueLength →
  ∃ w',
    otPosixSecureSettingsSet w aKey aValue aValueLength = Some (Terminated w') ∧
    store_holds w' (others aKey rs).
Proof.
  intros Hw Hrs Hlen Hroom Hshort.
  destruct (delete_on_records_renamed w rs aKey (-1) Hw Hrs) as (w1 & Hd & Hsw & Hst);
    [by left | by rewrite keep_first_0 |].
  change (Z.to_nat (-1)) with 0 in Hst. rewrite keep_first_0 in Hst.
  destruct (set_after_delete w aKey aValue aValueLength _ w1 Hd Hlen) as [_ H].
  destruct (H Hshort) as [sw Hset]. eexists. split; [exact Hset|].
  unfold store_holds in *. rewrite swap_write_keeps_store; eauto.
Qed.

(** X7. What [set] writes is found again by [get], once the descriptor is
    opened on the new store: occurrence 0 of the key has the value, and
    there is no other occurrence and no other key. *)
Theorem set_then_get w aKey v :
  fits (aKey, v) → 4 + length v ≤ swap_room w →
  ∃ w',
    otPosixSecureSettingsSet w aKey v (length v) = Some (Returned OT_ERROR_NONE w') ∧
    (∀ aValue aValueLength,
       otPosixSecureSettingsGet
         (otPosixSecureSettingsInit (otPosixSecureSettingsDeinit w')) aKey 0
         aValue aValueLength = Some (delivered v aValue aValueLength)) ∧
    (∀ k i aValue aValueLength,
       (0 ≤ i < 2 ^ 31)%Z → k ≠ aKey ∨ (0 < i)%Z →
       otPosixSecureSettingsGet
         (otPosixSecureSettingsInit (otPosixSecureSettingsDeinit w')) k i
         aValue aValueLength = Some (OT_ERROR_NOT_FOUND, aValue, aValueLength)).
Proof.
  intros Hfits Hroom.
  destruct (set_returns w aKey v (length v)) as [w' Hset]; [done..|].
  exists w'. split; [done|].
  destruct (set_installs _ _ _ _ _ _ Hset) as (_ & _ & Hst).
  rewrite firstn_all in Hst.
  assert (Hfd : fd_file (otPosixSecureSettingsInit (otPosixSecureSettingsDeinit w'))
                = Some (encode_store [(aKey, v)])).
  { apply reopened. rewrite Hst. unfold encode_store. cbn. by rewrite app_nil_r. }
  assert (Hrs : Forall fits [(aKey, v)]) by (by constructor; [|constructor]).
  split.
  - intros aValue aValueLength.
    rewrite (get_on_records _ [(aKey, v)]) by (done || lia).
    by rewrite occurrences_cons, decide_True.
  - intros k i aValue aValueLength Hi Hk.
    rewrite (get_on_records _ [(aKey, v)]) by done.
    rewrite occurrences_cons. cbn [fst]. case_decide as Hd.
    + destruct Hk as [Hk|Hk]; [congruence|].
      replace (Z.to_nat i) with (S (Z.to_nat (i - 1))) by lia. done.
    + done.
Qed.

(** ** Further properties of [delete] *)

Lemma keep_first_all aKey rs :
  ∀ k, length (occurrences aKey rs) ≤ k → keep_first aKey k rs = rs.
Proof.
  induction rs as [|r rs IH]; intros k; [done|].
  rewrite occurrences_cons. cbn [keep_first]. case_decide.
  - destruct k as [|k]; cbn [length]; [lia|]. intros Hk. by rewrite IH by lia.
  - intros Hk. by rewrite IH.
Qed.

Lemma occurrences_other_keep_first aKey k' rs :
  k' ≠ aKey → ∀ k, occurrences k' (keep_first aKey k rs) = occurrences k' rs.
Proof.
  intros Hne. induction rs as [|r rs IH]; intros k; [done|].
  cbn [keep_first]. rewrite (occurrences_cons k' r rs). case_decide as Hr.
  - rewrite decide_False by congruence.
    destruct k; [done|]. by rewrite occurrences_cons, decide_False by congruence.
  - rewrite occurrences_cons, IH. done.
Qed.

(** X8. On a store of whole records, when [/tmp/swap] has room for what is
    kept, [delete] puts under the settings file name a store made of records
    of the old one, in their order: of the key, the occurrences before the
    index (none for index -1); of every other key, all records. *)
Theorem delete_rewrites_store w rs aKey aIndex :
  opened_on w rs → Forall fits rs → index_ok aIndex →
  length (encode_store (keep_first aKey (Z.to_nat aIndex) rs)) ≤ swap_room w →
  ∃ error w' rs',
    otPosixSecureSettingsDelete w aKey aIndex = Some (error, w') ∧
    store_holds w' rs' ∧
    rs' `sublist_of` rs ∧
    occurrences aKey rs' = take (Z.to_nat aIndex) (occurrences aKey rs) ∧
    ∀ k, k ≠ aKey → occurrences k rs' = occurrences k rs.
Proof.
  intros Hw Hrs Hidx Hroom.
  destruct (delete_on_records w rs aKey aIndex Hw Hrs Hidx Hroom)
    as (w' & H & Hst & _).
  eexists _, w', _. split_and!; [exact H | exact Hst | ..].
  - apply keep_first_sublist.
  - apply occurrences_keep_first.
  - intros k Hk. by apply occurrences_other_keep_first.
Qed.

(** X9. [delete] of an occurrence the store does not have, of a key that is
    not there or at an index at or behind the number of its occurrences,
    returns [OT_ERROR_NOT_FOUND]; the settings file is replaced all the
    same, by a copy that holds the same records. *)
Theorem delete_missing_occurrence w rs aKey aIndex :
  opened_on w rs → Forall fits rs → (0 ≤ aIndex < 2 ^ 31)%Z →
  length (occurrences aKey rs) ≤ Z.to_nat aIndex →
  length (encode_store rs) ≤ swap_room w →
  ∃ w',
    otPosixSecureSettingsDelete w aKey aIndex = Some (OT_ERROR_NOT_FOUND, w') ∧
    store_holds w' rs ∧ swap_path w' = None.
Proof.
  intros Hw Hrs Hidx Hcount Hroom.
  destruct (delete_on_records_renamed w rs aKey aIndex Hw Hrs)
    as (w' & H & Hsw & Hst); [by right | by rewrite keep_first_all |].
  rewrite keep_first_all in Hst by done.
  rewrite decide_False in H by lia. eauto.
Qed.

(** X10. When the descriptor is not open, [delete] finds nothing to scan
    and still renames: it returns [OT_ERROR_NOT_FOUND] and leaves an empty
    file under the settings file name, whatever the store held. *)
Theorem delete_on_closed_descriptor w aKey aIndex :
  sSecureSettingsFd w = None →
  ∃ w',
    otPosixSecureSettingsDelete w aKey aIndex = Some (OT_ERROR_NOT_FOUND, w') ∧
    store_file w' = Some [] ∧ swap_path w' = None.
Proof.
  intros Hfd. unfold otPosixSecureSettingsDelete, open_swap, fd_file.
  cbn [sSecureSettingsFd]. rewrite Hfd. cbn.
  eexists. split; [done|].
  unfold store_file, file_of. cbn. by rewrite lookup_insert_eq.
Qed.

(** X11. Two calls of [delete] in a row do not add up. The second scans
    the file the descriptor is on, which is the store as it was before the
    first: what it installs is that store less its own deletion, and the
    records the first call had removed are back. *)
Theorem deletes_do_not_compose w rs k1 i1 k2 i2 :
  opened_on w rs → Forall fits rs → index_ok i1 → index_ok i2 →
  length (encode_store (keep_first k1 (Z.to_nat i1) rs)) ≤ swap_room w →
  length (encode_store (keep_first k2 (Z.to_nat i2) rs)) ≤ swap_room w →
  ∃ e1 w1 e2 w2,
    otPosixSecureSettingsDelete w k1 i1 = Some (e1, w1) ∧
    store_holds w1 (keep_first k1 (Z.to_nat i1) rs) ∧
    otPosixSecureSettingsDelete w1 k2 i2 = Some (e2, w2) ∧
    store_holds w2 (keep_first k2 (Z.to_nat i2) rs).
Proof.
  intros Hw Hrs Hi1 Hi2 Hr1 Hr2.
  destruct (delete_on_records w rs k1 i1 Hw Hrs Hi1 Hr1)
    as (w1 & H1 & Hst1 & Hw1 & _ & Hrm).
  destruct (delete_on_records w1 rs k2 i2 Hw1 Hrs Hi2) as (w2 & H2 & Hst2 & _);
    [by rewrite Hrm|].
  eexists _, w1, _, w2. eauto.
Qed.

(** X12. After [delete] at an index that is not negative, and once the
    descriptor is opened on the new store, [get] of the key reads the
    occurrences before the index as it did before the call and returns
    [OT_ERROR_NOT_FOUND] from the index on; [get] of every other key reads
    as before. *)
Theorem delete_then_reopen_get w rs aKey aIndex :
  opened_on w rs → Forall fits rs → (0 ≤ aIndex < 2 ^ 31)%Z →
  length (encode_store (keep_first aKey (Z.to_nat aIndex) rs)) ≤ swap_room w →
  ∃ error w',
    otPosixSecureSettingsDelete w aKey aIndex = Some (error, w') ∧
    ∀ k i aValue aValueLength,
      (0 ≤ i < 2 ^ 31)%Z →
      otPosixSecureSettingsGet
        (otPosixSecureSettingsInit (otPosixSecureSettingsDeinit w')) k i
        aValue aValueLength =
        if decide (k = aKey ∧ (aIndex ≤ i)%Z)
        then Some (OT_ERROR_NOT_FOUND, aValue, aValueLength)
        else otPosixSecureSettingsGet w k i aValue aValueLength.
Proof.
  intros Hw Hrs Hidx Hroom.
  destruct (delete_on_records w rs aKey aIndex Hw Hrs) as (w' & H & Hst & _);
    [by right | done |].
  eexists _, w'. split; [exact H|].
  intros k i aValue aValueLength Hi. destruct Hw as [Hfd _].
  rewrite (get_on_records _ (keep_first aKey (Z.to_nat aIndex) rs));
    [| by apply reopened | by apply keep_first_fits | done].
  rewrite (get_on_records w rs) by done.
  destruct (decide (k = aKey)) as [->|Hk].
  - rewrite occurrences_keep_first.
    destruct (decide (aKey = aKey ∧ (aIndex ≤ i)%Z)) as [[_ Hd]|Hd].
    + by rewrite lookup_take_ge by lia.
    + assert (i < aIndex)%Z by (destruct (Z.lt_ge_cases i aIndex); [done|tauto]).
      by rewrite lookup_take_lt by lia.
  - rewrite occurrences_other_keep_first by done.
    by rewrite decide_False by tauto.
Qed.

(** X13. Whatever the file behind the descriptor holds, [delete] comes to
    an end with [OT_ERROR_NONE] or [OT_ERROR_NOT_FOUND], the two statuses
    the [switch] in [set] lets pass, and leaves the descriptor as it was. *)
Theorem delete_status_and_descriptor w aKey aIndex :
  ∃ error w',
    otPosixSecureSettingsDelete w aKey aIndex = Some (error, w') ∧
    (error = OT_ERROR_NONE ∨ error = OT_ERROR_NOT_FOUND) ∧
    sSecureSettingsFd w' = sSecureSettingsFd w.
Proof.
  destruct (otPosixSecureSettingsDelete_total w aKey aIndex) as [[error w'] H].
  exists error, w'. split; [done|].
  apply delete_keeps_descriptor in H as (Hfd & _ & He). tauto.
Qed.

(** X14. What [delete] does to the store is not seen through the
    descriptor: after the call, which keeps the descriptor off [/tmp/swap],
    every [get] returns what it returned before, whatever the file holds. *)
Theorem delete_unseen_by_get w aKey aIndex :
  descriptor_ok w →
  ∃ error w',
    otPosixSecureSettingsDelete w aKey aIndex = Some (error, w') ∧
    descriptor_ok w' ∧
    ∀ k i aValue aValueLength,
      otPosixSecureSettingsGet w' k i aValue aValueLength =
      otPosixSecureSettingsGet w k i aValue aValueLength.
Proof.
  intros Hok.
  destruct (otPosixSecureSettingsDelete_total w aKey aIndex) as [[error w'] H].
  destruct (delete_frame _ _ _ _ _ Hok H) as [Hok' Hfd].
  exists error, w'. split_and!; [done..|].
  intros. by apply get_reads_fd.
Qed.

(** X15. Nor is what [set] does: after the call, whether it returned or
    ended the process, every [get] through the descriptor returns what it
    returned before. *)
Theorem set_unseen_by_get w aKey aValue aValueLength :
  descriptor_ok w →
  ∃ o,
    otPosixSecureSettingsSet w aKey aValue aValueLength = Some o ∧
    descriptor_ok (world_of o) ∧
    ∀ k i aValue' aValueLength',
      otPosixSecureSettingsGet (world_of o) k i aValue' aValueLength' =
      otPosixSecureSettingsGet w k i aValue' aValueLength'.
Proof.
  intros Hok.
  destruct (otPosixSecureSettingsSet_total w aKey aValue aValueLength) as [o H].
  destruct (set_frame _ _ _ _ _ Hok H) as [Hok' Hfd].
  exists o. split_and!; [done..|].
  intros. by apply get_reads_fd.
Qed.

(** ** Wipe, initialisation and the header fields *)

Lemma get_on_empty w aKey aIndex aValue aValueLength :
  fd_file w = Some [] →
  otPosixSecureSettingsGet w aKey aIndex aValue aValueLength =
    Some (OT_ERROR_NOT_FOUND, aValue, aValueLength).
Proof. intros Hfd. unfold otPosixSecureSettingsGet. by rewrite Hfd. Qed.

(** X16. [wipe] takes the name from the settings file and nothing else:
    through the descriptor every [get] returns what it returned before.
    Only when the descriptor is closed and opened again is the store empty:
    [init] creates an empty settings file, on which [get] returns
    [OT_ERROR_NOT_FOUND] for every key and index. *)
Theorem wipe_then_reopen w :
  store_file (otPosixSecureSettingsWipe w) = None ∧
  (∀ k i aValue aValueLength,
     otPosixSecureSettingsGet (otPosixSecureSettingsWipe w) k i aValue aValueLength =
     otPosixSecureSettingsGet w k i aValue aValueLength) ∧
  let w' := otPosixSecureSettingsInit
              (otPosixSecureSettingsDeinit (otPosixSecureSettingsWipe w)) in
  store_file w' = Some [] ∧
  ∀ k i aValue aValueLength,
    otPosixSecureSettingsGet w' k i aValue aValueLength =
      Some (OT_ERROR_NOT_FOUND, aValue, aValueLength).
Proof.
  split_and!; [done | by intros; apply get_reads_fd |].
  assert (Hfd : fd_file (otPosixSecureSettingsInit
                  (otPosixSecureSettingsDeinit (otPosixSecureSettingsWipe w)))
                = Some []).
  { unfold fd_file, file_of. cbn. by rewrite lookup_insert_eq. }
  split.
  - unfold store_file, file_of. cbn. by rewrite lookup_insert_eq.
  - intros. by apply get_on_empty.
Qed.

(** X17. A [delete] after [wipe], through the descriptor that is still
    open, brings the store back: it scans the file that lost its name and
    gives the settings file name to what it keeps of it. *)
Theorem wipe_undone_by_delete w rs aKey aIndex :
  opened_on w rs → Forall fits rs → index_ok aIndex →
  length (encode_store (keep_first aKey (Z.to_nat aIndex) rs)) ≤ swap_room w →
  store_file (otPosixSecureSettingsWipe w) = None ∧
  ∃ error w',
    otPosixSecureSettingsDelete (otPosixSecureSettingsWipe w) aKey aIndex =
      Some (error, w') ∧
    store_holds w' (keep_first aKey (Z.to_nat aIndex) rs).
Proof.
  intros Hw Hrs Hidx Hroom. split; [done|].
  destruct (delete_on_records (otPosixSecureSettingsWipe w) rs aKey aIndex)
    as (w' & H & Hst & _); eauto.
Qed.

(** X18. [init] opens the settings file as it is, without truncating it,
    and creates it empty, touching no other file, when the name is free. *)
Theorem init_opens_store w :
  (∀ f, store_file w = Some f →
     store_file (otPosixSecureSettingsInit w) = Some f ∧
     fd_file (otPosixSecureSettingsInit w) = Some f ∧
     inodes (otPosixSecureSettingsInit w) = inodes w) ∧
  (settings_path w = None →
     store_file (otPosixSecureSettingsInit w) = Some [] ∧
     fd_file (otPosixSecureSettingsInit w) = Some [] ∧
     ∀ i f, inodes w !! i = Some f →
            inodes (otPosixSecureSettingsInit w) !! i = Some f).
Proof.
  unfold store_file, fd_file, file_of, otPosixSecureSettingsInit, open_settings.
  split.
  - intros f Hf. destruct (settings_path w) as [j|] eqn:Hs; cbn in *; [|done].
    rewrite Hs. cbn. by rewrite Hf.
  - intros ->. cbn. rewrite lookup_insert_eq. split_and!; [done..|].
    intros i f Hi. rewrite lookup_insert_ne; [done|].
    intros <-. apply (is_fresh (dom (inodes w))). apply elem_of_dom. eauto.
Qed.

Lemma init_opens_store_fd w rs :
  store_holds w rs →
  fd_file (otPosixSecureSettingsInit w) = Some (encode_store rs).
Proof.
  unfold store_holds, store_file, fd_file, file_of, otPosixSecureSettingsInit,
    open_settings.
  by destruct (settings_path w).
Qed.

Lemma init_loop_total file size fuel :
  ∀ offset pos,
    0 < fuel → (size - offset < Z.of_nat fuel)%Z →
    is_Some (init_loop file size fuel offset pos).
Proof.
  induction fuel as [|fuel IH]; intros offset pos Hf Hm; [lia|].
  cbn [init_loop].
  destruct (Z.ltb_spec offset size); cbn [negb]; [|eauto].
  repeat (case_match; eauto); apply IH; lia.
Qed.

Lemma init_loop_records file rs :
  Forall fits rs →
  ∀ fuel pre offset pos,
    file = pre ++ encode_store rs →
    pos = length pre → offset = Z.of_nat pos → length rs < fuel →
    init_loop file (Z.of_nat (length file)) fuel offset pos =
      Some (Z.of_nat (length file)).
Proof.
  induction 1 as [|r rs [Hkey Hlen] Hrs IH];
    intros fuel pre offset pos Hfile Hpos Hoff Hfuel.
  - destruct fuel as [|fuel]; [simpl in Hfuel; lia|]. cbn [init_loop].
    assert (offset = Z.of_nat (length file)) as ->
      by (rewrite Hfile, length_app; simpl; lia).
    by rewrite Z.ltb_irrefl.
  - destruct fuel as [|fuel]; [simpl in Hfuel; lia|].
    destruct (pread_record pre r (encode_store rs) file pos)
      as (Hk & Hl & Hv); [by rewrite Hfile | done |].
    assert (Hsize : (offset <? Z.of_nat (length file))%Z = true).
    { apply Z.ltb_lt.
      rewrite Hfile, encode_store_cons, !length_app, length_encode_record. lia. }
    assert (Hskip : (offset + 4 + Z.of_nat (length r.2) =?
                     Z.of_nat (pos + 4 + length r.2))%Z = true)
      by (apply Z.eqb_eq; lia).
    cbn [init_loop].
    rewrite Hsize, Hk, Hl, !length_u16_bytes, !u16_value_bytes, Hskip by done.
    cbn [negb Nat.eqb].
    apply (IH fuel (pre ++ encode_record r)).
    + by rewrite Hfile, encode_store_cons, <-app_assoc.
    + rewrite length_app, length_encode_record. lia.
    + lia.
    + simpl in Hfuel. lia.
Qed.

(** X19. The scan that [init] makes of the file it has opened comes to an
    end whatever the file holds, and on a store of whole records it reads
    all headers and stops with its offset at the size of the file. *)
Theorem init_scan_ends w :
  (∃ offset, init_scan w = Some offset) ∧
  ∀ rs, store_holds w rs → Forall fits rs →
        init_scan w = Some (Z.of_nat (length (encode_store rs))).
Proof.
  unfold init_scan. split.
  - apply init_loop_total; [lia|]. destruct (fd_file _); simpl; lia.
  - intros rs Hst Hrs.
    rewrite (init_opens_store_fd w _ Hst).
    cbn [from_option id lseek_end lseek_set].
    apply (init_loop_records _ rs Hrs _ []); try done.
    pose proof (length_encode_store rs). lia.
Qed.

(** X20. Two bytes and a 16-bit value stand for each other: a header field
    that is read and written again, as [delete] does when it copies a
    record, comes out with the bytes it had, and a value that is written
    and read again comes out reduced modulo 65536. *)
Theorem header_field_both_ways :
  (∀ bs, length bs = 2 →
     u16_bytes (u16_value bs) = bs ∧ u16_value bs < 256 * 256) ∧
  (∀ x, length (u16_bytes x) = 2 ∧
        u16_value (u16_bytes x) = x mod (256 * 256)).
Proof.
  split.
  - intros bs Hbs. split; [by apply u16_bytes_value | apply u16_value_lt].
  - intros x. split; [apply length_u16_bytes|].
    unfold u16_bytes, u16_value.
    pose proof (Nat.Div0.mod_mul_r x 256 256) as Hm.
    destruct big_endian; rewrite !to_nat_byte_of_nat; lia.
Qed.

(** ** The rewrite of [delete] in front of a tail *)

Lemma length_fill buffer got :
  length got ≤ length buffer → length (fill buffer got) = length buffer.
Proof. intros H. unfold fill. rewrite length_app, length_drop. lia. Qed.

(** The buffer keeps its 512 bytes. *)
Lemma copy_loop_buffer file room fuel :
  ∀ len pos buffer sw pos' buffer' sw',
    copy_loop file room fuel len pos buffer sw = Some (Copied pos' buffer' sw') →
    length buffer = 512 → length buffer' = 512.
Proof.
  induction fuel as [|fuel IH]; intros len pos buffer sw pos' buffer' sw'.
  - cbn. destruct (len =? 0); [|done]. by intros [= _ <- _].
  - cbn [copy_loop]. destruct (len =? 0); [by intros [= _ <- _]|].
    destruct (negb (0 <? _)); [done|]. destruct (negb (_ =? _)); [done|].
    intros H Hb. apply IH in H; [done|].
    rewrite length_fill; [done|]. rewrite Hb.
    pose proof (length_pread_le file pos (if 512 <=? len then 512 else len)).
    destruct (512 <=? len) eqn:E; [lia|]. apply Nat.leb_gt in E. lia.
Qed.

(** Over the records [rs] in front of a tail the loop copies what
    [keep_first] keeps and arrives at the tail. *)
Lemma delete_loop_prefix file room aKey rs rest :
  Forall fits rs →
  ∀ fuel pre offset pos aIndex error buffer sw,
    file = pre ++ encode_store rs ++ rest →
    pos = length pre → offset = Z.of_nat pos →
    index_ok aIndex →
    length sw + length (encode_store (keep_first aKey (Z.to_nat aIndex) rs)) ≤ room →
    ∃ buffer',
      (length buffer = 512 → length buffer' = 512) ∧
      delete_loop file (Z.of_nat (length file)) room aKey (length rs + fuel)
                  offset pos aIndex error buffer sw =
      delete_loop file (Z.of_nat (length file)) room aKey fuel
                  (Z.of_nat (pos + length (encode_store rs)))
                  (pos + length (encode_store rs))
                  (index_after aIndex (length (occurrences aKey rs)))
                  (if decide (Z.to_nat aIndex < length (occurrences aKey rs))
                   then OT_ERROR_NONE else error)
                  buffer'
                  (sw ++ encode_store (keep_first aKey (Z.to_nat aIndex) rs)).
Proof.
  induction 1 as [|r rs [Hkey Hlen] Hrs IH];
    intros fuel pre offset pos aIndex error buffer sw Hfile Hpos Hoff Hidx Hroom.
  - exists buffer. split; [done|]. cbn [length Nat.add encode_store].
    unfold index_after. cbn. rewrite Nat.add_0_r, Nat.sub_0_r, app_nil_r.
    subst offset. f_equal.
    destruct Hidx as [->|Hidx]; [done|].
    replace (aIndex =? -1)%Z with false by (symmetry; apply Z.eqb_neq; lia). lia.
  - destruct (pread_record pre r (encode_store rs ++ rest) file pos)
      as (Hk & Hl & Hv); [by rewrite Hfile, encode_store_cons, <-app_assoc | done |].
    assert (Hsize : (offset <? Z.of_nat (length file))%Z = true).
    { apply Z.ltb_lt.
      rewrite Hfile, encode_store_cons, !length_app, length_encode_record. lia. }
    assert (Hskip : (offset + 4 + Z.of_nat (length r.2) =?
                     Z.of_nat (pos + 4 + length r.2))%Z = true)
      by (apply Z.eqb_eq; lia).
    specialize (IH fuel (pre ++ encode_record r)
                  (offset + 4 + Z.of_nat (length r.2))%Z (pos + 4 + length r.2)).
    rewrite encode_store_cons, <-app_assoc, (app_assoc pre) in Hfile.
    rewrite length_app, length_encode_record in IH.
    rewrite (encode_store_cons r rs), (length_app (encode_record r)),
      length_encode_record.
    replace (pos + (4 + length r.2 + length (encode_store rs)))
      with (pos + 4 + length r.2 + length (encode_store rs)) by lia.
    change (length (r :: rs) + fuel) with (S (length rs + fuel)).
    cbn [delete_loop].
    rewrite Hsize, Hk, Hl, !length_u16_bytes, !u16_value_bytes, Hskip by done.
    cbn [negb Nat.eqb]. rewrite occurrences_cons. cbn [keep_first] in Hroom |- *.
    assert (Hcopy :
      length sw + length (encode_record r) ≤ room →
      ∃ buffer',
        copy_loop file room (length r.2) (length r.2) (pos + 4) buffer
          (pwrite room (pwrite room sw (u16_bytes r.1)) (u16_bytes (length r.2))) =
          Some (Copied (pos + 4 + length r.2) buffer' (sw ++ encode_record r)) ∧
        written room sw (u16_bytes r.1) = 2 ∧
        written room (pwrite room sw (u16_bytes r.1)) (u16_bytes (length r.2)) = 2 ∧
        (length buffer = 512 → length buffer' = 512)).
    { rewrite length_encode_record. intros Hr.
      destruct (written_fits room sw (u16_bytes r.1)) as [-> ->];
        [rewrite length_u16_bytes; lia|].
      destruct (written_fits room (sw ++ u16_bytes r.1) (u16_bytes (length r.2)))
        as [-> ->]; [rewrite length_app, !length_u16_bytes; lia|].
      destruct (copy_loop_whole file room (length r.2) (length r.2) (pos + 4) buffer
                  ((sw ++ u16_bytes r.1) ++ u16_bytes (length r.2)) r.2)
        as [buffer' Hc]; [done | | done | |].
      - by rewrite Hv, take_app_length.
      - rewrite !length_app, !length_u16_bytes. lia.
      - exists buffer'. rewrite Hc, !length_u16_bytes. split_and!; try done.
        + unfold encode_record. by rewrite <-!app_assoc.
        + by eapply copy_loop_buffer. }
    destruct (Nat.eqb_spec aKey r.1) as [Heq|Hne].
    + rewrite !(decide_True (P := r.1 = aKey)) in Hroom by congruence.
      rewrite !(decide_True (P := r.1 = aKey)) by congruence.
      destruct (Z.eqb_spec aIndex 0) as [->|Hnz];
        [|destruct (Z.eqb_spec aIndex (-1)) as [->|Hn1]].
      * destruct (IH 0%Z OT_ERROR_NONE buffer sw) as (buffer' & Hb & ->);
          [done | lia | lia | done | done |].
        exists buffer'. split; [done|]. change (Z.to_nat 0) with 0.
        unfold index_after. cbn [Z.eqb Z.to_nat Nat.sub length].
        f_equal. repeat case_decide; try done; cbn [length] in *; lia.
      * destruct (IH (-1)%Z OT_ERROR_NONE buffer sw) as (buffer' & Hb & ->);
          [done | lia | lia | done | done |].
        exists buffer'. split; [done|]. change (Z.to_nat (-1)) with 0.
        unfold index_after. cbn [Z.eqb].
        f_equal. repeat case_decide; try done; cbn [length] in *; lia.
      * assert (0 < aIndex < 2 ^ 31)%Z as Hi by (destruct Hidx; lia).
        replace (Z.to_nat aIndex) with (S (Z.to_nat (aIndex - 1))) in Hroom |- * by lia.
        cbn [keep_first] in Hroom |- *.
        rewrite encode_store_cons, length_app in Hroom.
        destruct Hcopy as (buffer1 & -> & -> & -> & Hb1); [lia|].
        cbn [negb Nat.eqb]. rewrite int_wrap_id by lia.
        destruct (IH (aIndex - 1)%Z error buffer1 (sw ++ encode_record r))
          as (buffer' & Hb & ->);
          [done | lia | lia | right; lia | rewrite length_app; lia |].
        exists buffer'. split; [tauto|].
        rewrite encode_store_cons, <-app_assoc. unfold index_after.
        replace (aIndex - 1 =? -1)%Z with false by (symmetry; apply Z.eqb_neq; lia).
        replace (aIndex =? -1)%Z with false by (symmetry; apply Z.eqb_neq; lia).
        cbn [length]. f_equal; [lia|].
        repeat case_decide; try done; lia.
    + rewrite !(decide_False (P := r.1 = aKey)) in Hroom by congruence.
      rewrite !(decide_False (P := r.1 = aKey)) by congruence.
      rewrite encode_store_cons, length_app in Hroom.
      destruct Hcopy as (buffer1 & -> & -> & -> & Hb1); [lia|].
      cbn [negb Nat.eqb].
      destruct (IH aIndex error buffer1 (sw ++ encode_record r))
        as (buffer' & Hb & ->);
        [done | lia | lia | done | rewrite length_app; lia |].
      exists buffer'. split; [tauto|].
      by rewrite encode_store_cons, <-app_assoc.
Qed.

(** ** [get] with an index below zero *)

(** An index below zero is lowered at every occurrence and never is 0. *)
Lemma get_loop_negative file size aKey fuel :
  ∀ offset pos aIndex aValue aValueLength r,
    (aIndex < 0)%Z → (Z.of_nat fuel ≤ 2 ^ 31 + aIndex)%Z →
    get_loop file size aKey fuel offset pos aIndex aValue aValueLength = Some r →
    r = (OT_ERROR_NOT_FOUND, aValue, aValueLength).
Proof.
  induction fuel as [|fuel IH];
    intros offset pos aIndex aValue aValueLength r Hneg Hfuel; [done|].
  cbn [get_loop].
  destruct (negb (offset <? size)%Z); [congruence|].
  destruct (negb (length (pread file pos 2) =? 2)); [congruence|].
  destruct (negb (length (pread file (pos + 2) 2) =? 2)); [congruence|].
  destruct (negb (_ =? _)%Z).
  { destruct (_ =? aKey); [|congruence].
    destruct (Z.eqb_spec aIndex 0); [lia|congruence]. }
  destruct (_ =? aKey).
  - destruct (Z.eqb_spec aIndex 0) as [->|_]; [lia|].
    rewrite int_wrap_id by lia. apply IH; lia.
  - apply IH; lia.
Qed.

(** X21. [get] with an index below zero finds nothing, whatever the file
    behind the descriptor holds, and leaves the caller's buffer and length
    alone: the index -1 means every occurrence to [delete] only. The file
    has fewer than 2^31 + aIndex bytes, so that the index cannot wrap. *)
Theorem get_negative_index w aKey aIndex aValue aValueLength :
  (aIndex < 0)%Z →
  (Z.of_nat (length (default [] (fd_file w))) < 2 ^ 31 + aIndex)%Z →
  otPosixSecureSettingsGet w aKey aIndex aValue aValueLength =
    Some (OT_ERROR_NOT_FOUND, aValue, aValueLength).
Proof.
  intros Hneg Hlen.
  destruct (otPosixSecureSettingsGet_total w aKey aIndex aValue aValueLength)
    as [r Hr].
  rewrite Hr. f_equal. unfold otPosixSecureSettingsGet in Hr.
  eapply get_loop_negative; [| |exact Hr]; lia.
Qed.

(** ** The rewrite of [delete] at a malformed tail *)

Lemma delete_loop_partial file room aKey pre tail fuel offset pos aIndex error
    buffer sw :
  file = pre ++ tail → partial_header tail →
  pos = length pre → offset = Z.of_nat pos → 0 < fuel →
  delete_loop file (Z.of_nat (length file)) room aKey fuel offset pos aIndex
              error buffer sw =
    Some (Rewritten false error sw).
Proof.
  intros -> [Hlo Hhi] -> -> Hfuel. destruct fuel as [|fuel]; [lia|].
  cbn [delete_loop].
  replace (_ <? _)%Z with true by (symmetry; apply Z.ltb_lt; rewrite length_app; lia).
  cbn [negb]. rewrite pread_skip by done.
  rewrite <-(Nat.add_comm 2), (Nat.add_comm 2), pread_app.
  destruct tail as [|a [|b [|c [|d t]]]]; cbn in *; done || lia.
Qed.

Lemma delete_loop_end file size room aKey fuel offset pos aIndex error buffer sw :
  (size ≤ offset)%Z → 0 < fuel →
  delete_loop file size room aKey fuel offset pos aIndex error buffer sw =
    Some (Rewritten true error sw).
Proof.
  intros Hend Hfuel. destruct fuel as [|fuel]; [lia|]. cbn [delete_loop].
  by replace (_ <? _)%Z with false by (symmetry; apply Z.ltb_ge; lia).
Qed.

(** A payload the file has only the first bytes of, [rest], and that fits
    the buffer: one [read] gets them, and the [write] that follows takes
    the declared number of bytes from the buffer. *)
Lemma copy_loop_short file room fuel len pos buffer sw rest :
  0 < fuel → pread file pos len = rest → 0 < length rest < len → len ≤ 512 →
  length buffer = 512 → length sw + len ≤ room →
  copy_loop file room fuel len pos buffer sw =
    Some (Copied (pos + length rest) (fill buffer rest)
            (sw ++ rest ++ take (len - length rest) (drop (length rest) buffer))).
Proof.
  intros Hfuel Hrest Hlen H512 Hbuf Hroom. destruct fuel as [|fuel]; [lia|].
  cbn [copy_loop].
  replace (len =? 0) with false by (symmetry; apply Nat.eqb_neq; lia).
  assert ((if 512 <=? len then 512 else len) = len) as ->
    by (destruct (Nat.leb_spec 512 len); lia).
  rewrite Hrest.
  replace (0 <? length rest) with true by (symmetry; apply Nat.ltb_lt; lia).
  cbn [negb].
  assert (Hout : take len (fill buffer rest) =
                 rest ++ take (len - length rest) (drop (length rest) buffer)).
  { unfold fill. by rewrite take_app_ge by lia. }
  rewrite Hout.
  destruct (written_fits room sw
              (rest ++ take (len - length rest) (drop (length rest) buffer)))
    as [-> ->].
  { rewrite length_app, length_take, length_drop. lia. }
  rewrite length_app, length_take, length_drop.
  replace (length rest + (len - length rest) `min` (length buffer - length rest))
    with len by lia.
  rewrite Nat.eqb_refl, Nat.sub_diag. cbn [negb].
  by destruct fuel.
Qed.

(** A last record of another key whose header declares more bytes than the
    file has left. *)
Lemma delete_loop_overrun file room aKey pre key len rest fuel offset pos aIndex
    error buffer sw :
  file = pre ++ u16_bytes key ++ u16_bytes len ++ rest →
  pos = length pre → offset = Z.of_nat pos → 1 < fuel →
  key < 256 * 256 → key ≠ aKey → 0 < length rest < len → len ≤ 512 →
  length buffer = 512 → length sw + 4 + len ≤ room →
  delete_loop file (Z.of_nat (length file)) room aKey fuel offset pos aIndex
              error buffer sw =
    Some (Rewritten true error
            (sw ++ u16_bytes key ++ u16_bytes len ++ rest ++
             take (len - length rest) (drop (length rest) buffer))).
Proof.
  intros Hfile Hpos Hoff Hfuel Hkey Hne Hrest H512 Hbuf Hroom.
  destruct fuel as [|fuel]; [lia|].
  assert (Hk : pread file pos 2 = u16_bytes key).
  { rewrite Hfile, pread_skip by done.
    by rewrite take_app_length' by by rewrite length_u16_bytes. }
  assert (Hl : pread file (pos + 2) 2 = u16_bytes len).
  { rewrite Hfile, (app_assoc pre), pread_skip
      by (rewrite length_app, length_u16_bytes; lia).
    by rewrite take_app_length' by by rewrite length_u16_bytes. }
  assert (Hv : pread file (pos + 4) len = rest).
  { rewrite Hfile, (app_assoc pre), (app_assoc (pre ++ _)), pread_skip
      by (rewrite !length_app, !length_u16_bytes; lia).
    by rewrite take_ge by lia. }
  assert (Hsize : length file = pos + 4 + length rest).
  { rewrite Hfile, !length_app, !length_u16_bytes. lia. }
  cbn [delete_loop].
  replace (offset <? _)%Z with true by (symmetry; apply Z.ltb_lt; lia).
  rewrite Hk, Hl, !length_u16_bytes, !u16_value_bytes by lia.
  cbn [negb Nat.eqb].
  replace (aKey =? key) with false by (symmetry; apply Nat.eqb_neq; congruence).
  destruct (written_fits room sw (u16_bytes key)) as [-> ->];
    [rewrite length_u16_bytes; lia|].
  destruct (written_fits room (sw ++ u16_bytes key) (u16_bytes len)) as [-> ->];
    [rewrite length_app, !length_u16_bytes; lia|].
  rewrite !length_u16_bytes. cbn [negb Nat.eqb].
  rewrite (copy_loop_short _ _ _ _ _ _ _ rest);
    [| lia | done | done | done | done
     | rewrite !length_app, !length_u16_bytes; lia ].
  rewrite delete_loop_end by lia.
  by rewrite <-!app_assoc.
Qed.

(** ** What a call of [delete] leaves, by the way its scan ends *)

Lemma delete_renamed w file aKey aIndex error sw :
  fd_file w = Some file → swap_path w ≠ sSecureSettingsFd w →
  delete_loop file (Z.of_nat (length file)) (swap_room w) aKey (S (length file))
              0 0 aIndex OT_ERROR_NOT_FOUND (buffer512 w) [] =
    Some (Rewritten true error sw) →
  ∃ w',
    otPosixSecureSettingsDelete w aKey aIndex = Some (error, w') ∧
    store_file w' = Some sw ∧ fd_file w' = Some file ∧ swap_path w' = None.
Proof.
  intros Hfd Hne Hloop.
  destruct (open_swap_fd w _ Hfd Hne) as [Hfd1 Hne1].
  unfold otPosixSecureSettingsDelete.
  destruct (open_swap w) as [w1 i] eqn:Hopen. cbn [fst snd] in Hfd1, Hne1.
  assert (swap_path w1 = Some i ∧ swap_room w1 = swap_room w ∧
          sSecureSettingsFd w1 = sSecureSettingsFd w ∧ stack w1 = stack w)
    as (Hsw & Hrm & Hfdw & Hst).
  { unfold open_swap in Hopen. by injection Hopen as <- <-. }
  rewrite Hfd1. cbn [from_option id lseek_end lseek_set].
  unfold buffer512 in *. rewrite Hrm, Hst. change (Z.of_nat 0) with 0%Z in Hloop.
  rewrite Hloop.
  cbn [mbind option_bind renamed status swap_file].
  eexists. split; [done|].
  unfold rename_swap, set_file. cbn [swap_path]. rewrite Hsw.
  unfold store_file, fd_file, file_of.
  cbn [inodes settings_path swap_path sSecureSettingsFd mbind option_bind].
  rewrite lookup_insert_eq. split_and!; try done.
  unfold fd_file, file_of in Hfd1. rewrite Hfdw in *.
  destruct (sSecureSettingsFd w) as [j|]; [|done]. cbn [mbind option_bind] in *.
  rewrite lookup_insert_ne by congruence. done.
Qed.

Lemma delete_exited w file aKey aIndex error sw :
  fd_file w = Some file → swap_path w ≠ sSecureSettingsFd w →
  delete_loop file (Z.of_nat (length file)) (swap_room w) aKey (S (length file))
              0 0 aIndex OT_ERROR_NOT_FOUND (buffer512 w) [] =
    Some (Rewritten false error sw) →
  ∃ w',
    otPosixSecureSettingsDelete w aKey aIndex = Some (error, w') ∧
    settings_path w' = settings_path w ∧
    sSecureSettingsFd w' = sSecureSettingsFd w ∧
    fd_file w' = Some file ∧ file_of w' (swap_path w') = Some sw.
Proof.
  intros Hfd Hne Hloop.
  destruct (open_swap_fd w _ Hfd Hne) as [Hfd1 Hne1].
  unfold otPosixSecureSettingsDelete.
  destruct (open_swap w) as [w1 i] eqn:Hopen. cbn [fst snd] in Hfd1, Hne1.
  assert (swap_path w1 = Some i ∧ swap_room w1 = swap_room w ∧
          sSecureSettingsFd w1 = sSecureSettingsFd w ∧ stack w1 = stack w ∧
          settings_path w1 = settings_path w)
    as (Hsw & Hrm & Hfdw & Hst & Hsp).
  { unfold open_swap in Hopen. by injection Hopen as <- <-. }
  rewrite Hfd1. cbn [from_option id lseek_end lseek_set].
  unfold buffer512 in *. rewrite Hrm, Hst. change (Z.of_nat 0) with 0%Z in Hloop.
  rewrite Hloop.
  cbn [mbind option_bind renamed status swap_file].
  eexists. split; [done|].
  unfold set_file, fd_file, file_of.
  cbn [inodes settings_path swap_path sSecureSettingsFd mbind option_bind].
  rewrite Hsw. cbn [mbind option_bind].
  rewrite lookup_insert_eq. split_and!; try done.
  unfold fd_file, file_of in Hfd1. rewrite Hfdw in *.
  destruct (sSecureSettingsFd w) as [j|]; [|done]. cbn [mbind option_bind] in *.
  rewrite lookup_insert_ne by congruence. done.
Qed.

Lemma length_buffer512 w : length (buffer512 w) = 512.
Proof.
  unfold buffer512. rewrite length_take, length_app, length_replicate. lia.
Qed.

Lemma encode_store_app rs1 rs2 :
  encode_store (rs1 ++ rs2) = encode_store rs1 ++ encode_store rs2.
Proof. unfold encode_store. by rewrite fmap_app, concat_app. Qed.

(** X22. [delete] on a store whose last bytes are a header cut short:
    the scan stops there and jumps past the rename, so the settings file
    is left as it was, with every occurrence of the key still in it; the
    status is that of the occurrences passed, OT_ERROR_NONE where one was
    left out of the copy. What was copied stays under [/tmp/swap]. *)
Theorem delete_partial_header w rs tail aKey aIndex :
  fd_file w = Some (encode_store rs ++ tail) →
  swap_path w ≠ sSecureSettingsFd w →
  sSecureSettingsFd w = settings_path w →
  partial_header tail → Forall fits rs → index_ok aIndex →
  length (encode_store (keep_first aKey (Z.to_nat aIndex) rs)) ≤ swap_room w →
  ∃ w',
    otPosixSecureSettingsDelete w aKey aIndex =
      Some (if decide (Z.to_nat aIndex < length (occurrences aKey rs))
            then OT_ERROR_NONE else OT_ERROR_NOT_FOUND, w') ∧
    store_file w' = Some (encode_store rs ++ tail) ∧
    file_of w' (swap_path w') =
      Some (encode_store (keep_first aKey (Z.to_nat aIndex) rs)).
Proof.
  intros Hfd Hne Hon Htail Hrs Hidx Hroom.
  set (file := encode_store rs ++ tail) in *.
  assert (Hlen : length rs < length file).
  { pose proof (length_encode_store rs). destruct Htail.
    unfold file. rewrite length_app. lia. }
  destruct (delete_loop_prefix file (swap_room w) aKey rs tail Hrs
              (S (length file) - length rs) [] 0%Z 0 aIndex OT_ERROR_NOT_FOUND
              (buffer512 w) []) as (buffer' & _ & Hloop);
    [done | done | done | done | cbn [length]; lia |].
  replace (length rs + (S (length file) - length rs)) with (S (length file))
    in Hloop by lia.
  rewrite (delete_loop_partial file _ aKey (encode_store rs) tail
             (S (length file) - length rs)) in Hloop;
    [| done | done | done | done | lia ].
  destruct (delete_exited w file aKey aIndex _ _ Hfd Hne Hloop)
    as (w' & Hdel & Hsp & Hfdw & Hfd' & Hswap).
  exists w'. split_and!; [done | | done].
  unfold store_file. rewrite Hsp, <-Hon, <-Hfdw. exact Hfd'.
Qed.

(** X23. [delete] on a store whose last record, of another key, declares
    more bytes than the file has left: where at least one byte is left and
    the declared length fits the buffer, the record is copied with its
    declared length, the bytes the file does not have being taken from what
    the buffer held, and the rewritten store, now of whole records, gets
    the name of the settings file. *)
Theorem delete_pads_overrun w rs key len rest aKey aIndex :
  fd_file w = Some (encode_store rs ++ u16_bytes key ++ u16_bytes len ++ rest) →
  swap_path w ≠ sSecureSettingsFd w →
  Forall fits rs → index_ok aIndex →
  key < 256 * 256 → key ≠ aKey → 0 < length rest < len → len ≤ 512 →
  length (encode_store (keep_first aKey (Z.to_nat aIndex) rs)) + 4 + len
    ≤ swap_room w →
  ∃ w' pad,
    otPosixSecureSettingsDelete w aKey aIndex =
      Some (if decide (Z.to_nat aIndex < length (occurrences aKey rs))
            then OT_ERROR_NONE else OT_ERROR_NOT_FOUND, w') ∧
    length pad = len - length rest ∧
    store_holds w' (keep_first aKey (Z.to_nat aIndex) rs ++ [(key, rest ++ pad)]).
Proof.
  intros Hfd Hne Hrs Hidx Hkey Hkne Hrest H512 Hroom.
  set (tail := u16_bytes key ++ u16_bytes len ++ rest) in *.
  set (file := encode_store rs ++ tail) in *.
  assert (Htl : length tail = 4 + length rest)
    by (unfold tail; rewrite !length_app, !length_u16_bytes; lia).
  assert (Hlen : length rs + 4 ≤ length file).
  { pose proof (length_encode_store rs). unfold file. rewrite length_app. lia. }
  destruct (delete_loop_prefix file (swap_room w) aKey rs tail Hrs
              (S (length file) - length rs) [] 0%Z 0 aIndex OT_ERROR_NOT_FOUND
              (buffer512 w) []) as (buffer' & Hbuf & Hloop);
    [done | done | done | done | cbn [length]; lia |].
  replace (length rs + (S (length file) - length rs)) with (S (length file))
    in Hloop by lia.
  rewrite (delete_loop_overrun file _ aKey (encode_store rs) key len rest
             (S (length file) - length rs)) in Hloop;
    [| done | done | done | lia | done | done | done | done
     | apply Hbuf, length_buffer512 | cbn [app length Nat.add]; lia ].
  destruct (delete_renamed w file aKey aIndex _ _ Hfd Hne Hloop)
    as (w' & Hdel & Hstore & _).
  exists w', (take (len - length rest) (drop (length rest) buffer')).
  assert (Hpad : length (take (len - length rest) (drop (length rest) buffer')) =
                 len - length rest).
  { rewrite length_take, length_drop, (Hbuf (length_buffer512 w)). lia. }
  split_and!; [done | done |].
  unfold store_holds. rewrite Hstore, encode_store_app, (encode_store_cons _ []).
  unfold encode_record. cbn [app fst snd].
  change (encode_store []) with (@nil byte).
  rewrite app_nil_r, length_app, Hpad.
  replace (length rest + (len - length rest)) with len by lia.
  by rewrite <-?app_assoc.
Qed.

End Store.

(** ** The claims on concrete stores *)

(** C1 on a store that holds a record of another key. *)
Lemma set_replaces_store_witness :
  ∃ w',
    otPosixSecureSettingsSet false (store_of (encode_store false [(7, CD)]) []) 1 AB 2 =
      Some (Returned OT_ERROR_NONE w') ∧
    store_holds false w' [(1, AB)].
Proof.
  eexists. split; [vm_compute; reflexivity|].
  eapply (set_replaces_store false (store_of (encode_store false [(7, CD)]) []) 1 AB 2).
  vm_compute. reflexivity.
Defined.

(** C6 with a buffer of one byte for a value of two. *)
Lemma get_truncates_witness :
  otPosixSecureSettingsGet false (store_of (encode_store false [(1, AB); (1, CD)]) [])
      1 1 (Some zeros) (Some 1) =
    Some (OT_ERROR_NONE, Some [x43; x00], Some 2).
Proof.
  apply (get_truncates false _ [(1, AB); (1, CD)] 1 1 CD zeros 1).
  - reflexivity.
  - fits_all.
  - lia.
  - reflexivity.
Defined.

(** C7 for key 0x0201 and the value "AB", set on a store that holds key 7. *)
Lemma record_round_trip_witness :
  ∃ w' file,
    otPosixSecureSettingsSet false (store_of (encode_store false [(7, CD)]) [])
        513 AB 2 =
      Some (Returned OT_ERROR_NONE w') ∧
    store_file w' = Some file ∧
    u16_value false (pread file 0 2) = 513 ∧
    u16_value false (pread file 2 2) = 2 ∧
    pread file 4 2 = AB ∧
    otPosixSecureSettingsGet false (reopen w') 513 0 (Some zeros) (Some 2) =
      Some (OT_ERROR_NONE, Some AB, Some 2).
Proof.
  destruct (record_round_trip false
              (store_of (encode_store false [(7, CD)]) []) 513 AB)
    as (w' & file & Hset & Hst & Hfd & _ & H1 & H2 & H3 & Hget).
  - split; cbv -[Nat.mul lt]; lia.
  - vm_compute. lia.
  - exists w', file. split; [exact Hset|]. split; [exact Hst|].
    split; [exact H1|]. split; [exact H2|]. split; [exact H3|].
    apply (Hget (reopen w') zeros 2 Hfd). apply le_n.
Defined.

(** C2 as stated fails: after the two [add]s, [get] of occurrence 0 of key 1
    does not return "AB", neither through the descriptor of the calls nor
    through one opened afterwards. *)
Lemma add_add_scenario_counterexample :
  ∃ w1 w2,
    otPosixSecureSettingsAdd false empty_store 1 AB 2 =
      Some (Returned OT_ERROR_NONE w1) ∧
    otPosixSecureSettingsAdd false w1 1 CD 2 = Some (Returned OT_ERROR_NONE w2) ∧
    otPosixSecureSettingsGet false w2 1 0 (Some zeros) (Some 2) ≠
      Some (OT_ERROR_NONE, Some AB, Some 2) ∧
    otPosixSecureSettingsGet false (reopen w2) 1 0 (Some zeros) (Some 2) ≠
      Some (OT_ERROR_NONE, Some AB, Some 2).
Proof.
  eexists _, _. split_and!.
  - vm_compute. reflexivity.
  - vm_compute. reflexivity.
  - vm_compute. discriminate.
  - vm_compute. discriminate.
Qed.

(** C2, amended. From an empty store, [add] of "AB" and then of "CD" under
    key 1 leave a store of one record, (1, "CD"). Through a descriptor
    opened after the calls, [get] returns "CD" for occurrence 0 and
    [OT_ERROR_NOT_FOUND] for occurrence 1. [delete] of occurrence 1 then
    returns [OT_ERROR_NOT_FOUND] and leaves that record in the store: [get]
    of occurrence 1 is [OT_ERROR_NOT_FOUND] and [get] of occurrence 0 is
    still "CD". *)
Theorem add_add_scenario (big_endian : bool) :
  ∃ w1 w2,
    otPosixSecureSettingsAdd big_endian empty_store 1 AB 2 =
      Some (Returned OT_ERROR_NONE w1) ∧
    otPosixSecureSettingsAdd big_endian w1 1 CD 2 =
      Some (Returned OT_ERROR_NONE w2) ∧
    store_holds big_endian w2 [(1, CD)] ∧
    otPosixSecureSettingsGet big_endian (reopen w2) 1 0 (Some zeros) (Some 2) =
      Some (OT_ERROR_NONE, Some CD, Some 2) ∧
    otPosixSecureSettingsGet big_endian (reopen w2) 1 1 (Some zeros) (Some 2) =
      Some (OT_ERROR_NOT_FOUND, Some zeros, Some 2) ∧
    ∃ w3,
      otPosixSecureSettingsDelete big_endian (reopen w2) 1 1 =
        Some (OT_ERROR_NOT_FOUND, w3) ∧
      store_holds big_endian w3 [(1, CD)] ∧
      otPosixSecureSettingsGet big_endian (reopen w3) 1 1 (Some zeros) (Some 2) =
        Some (OT_ERROR_NOT_FOUND, Some zeros, Some 2) ∧
      otPosixSecureSettingsGet big_endian (reopen w3) 1 0 (Some zeros) (Some 2) =
        Some (OT_ERROR_NONE, Some CD, Some 2).
Proof.
  destruct big_endian.
  all: eexists _, _; do 5 (apply conj; [vm_compute; reflexivity|]).
  all: eexists; by_computation.
Qed.

(** C3 on a store that holds "AB" and "CD" under key 1. [delete] of
    occurrence 1 returns [OT_ERROR_NONE] and the settings file is left with
    the first occurrence alone; [get] of occurrence 0 succeeds; but [get] of
    occurrence 1 still returns "CD", where the claim has
    [OT_ERROR_NOT_FOUND]: the descriptor is on the file that was replaced.
    A descriptor opened afterwards gets [OT_ERROR_NOT_FOUND]. *)
Theorem delete_then_get_stale :
  ∃ w',
    otPosixSecureSettingsDelete false
        (store_of (encode_store false [(1, AB); (1, CD)]) []) 1 1 =
      Some (OT_ERROR_NONE, w') ∧
    store_holds false w' [(1, AB)] ∧
    otPosixSecureSettingsGet false w' 1 0 (Some zeros) (Some 2) =
      Some (OT_ERROR_NONE, Some AB, Some 2) ∧
    otPosixSecureSettingsGet false w' 1 1 (Some zeros) (Some 2) =
      Some (OT_ERROR_NONE, Some CD, Some 2) ∧
    otPosixSecureSettingsGet false (reopen w') 1 1 (Some zeros) (Some 2) =
      Some (OT_ERROR_NOT_FOUND, Some zeros, Some 2).
Proof.
  eexists. by_computation.
Qed.

(** C4 on a store whose only record declares 10 bytes and has 3. The read
    of the payload transfers 3 of the 10 bytes asked for; [delete] goes on,
    writes 10 bytes of its buffer and renames: the settings file has
    changed, and its last 7 bytes are what the stack held. *)
Theorem delete_short_read_renamed :
  let junk := [x61; x62; x63; x64; x65; x66; x67; x68; x69; x6a; x6b; x6c] in
  length (pread (cut_short false) 4 10) = 3 ∧
  ∃ w',
    otPosixSecureSettingsDelete false (store_of (cut_short false) junk) 1 (-1) =
      Some (OT_ERROR_NOT_FOUND, w') ∧
    store_file w' =
      Some ((cut_short false) ++ [x64; x65; x66; x67; x68; x69; x6a]) ∧
    store_file w' ≠ store_file (store_of (cut_short false) junk).
Proof.
  split; [reflexivity|].
  eexists. split_and!; [vm_compute; reflexivity..|].
  vm_compute. discriminate.
Qed.

(** The other checks of [delete] do leave before the [rename]: with room
    for 5 bytes in [/tmp/swap] the copy of a record of 6 stops at a short
    write, and the settings file is as it was. *)
Example delete_short_write_exits :
  ∃ w',
    otPosixSecureSettingsDelete false
        (otPosixSecureSettingsInit
           (World {[0 := encode_store false [(1, AB)]]} (Some 0) None None 5 []))
        2 (-1) =
      Some (OT_ERROR_NOT_FOUND, w') ∧
    store_file w' = Some (encode_store false [(1, AB)]) ∧
    file_of w' (swap_path w') = Some (u16_bytes false 1 ++ u16_bytes false 2 ++ [x41]).
Proof.
  eexists. by_computation.
Qed.

(** C5 as stated fails: a record has the key, and [delete] with an index
    behind its occurrences returns [OT_ERROR_NOT_FOUND]. *)
Lemma delete_status_counterexample :
  occurrences 1 [(1, AB)] = [(1, AB)] ∧
  (∃ w',
     otPosixSecureSettingsDelete false (store_of (encode_store false [(1, AB)]) []) 1 5 =
       Some (OT_ERROR_NOT_FOUND, w')) ∧
  ¬ (∃ w',
     otPosixSecureSettingsDelete false (store_of (encode_store false [(1, AB)]) []) 1 5 =
       Some (OT_ERROR_NONE, w')).
Proof.
  split_and!.
  - reflexivity.
  - eexists. vm_compute. reflexivity.
  - intros [w' H]. vm_compute in H. discriminate.
Qed.

(** C5, amended, with index 1 where the key has two occurrences. *)
Lemma delete_status_witness :
  ∃ error w',
    otPosixSecureSettingsDelete false
        (store_of (encode_store false [(1, AB); (2, CD); (1, CD)]) []) 1 1 =
      Some (error, w') ∧
    error = OT_ERROR_NONE.
Proof.
  destruct (delete_status false
              (store_of (encode_store false [(1, AB); (2, CD); (1, CD)]) [])
              [(1, AB); (2, CD); (1, CD)] 1 1)
    as (error & w' & H & _ & Hiff & _).
  - split; [reflexivity | discriminate].
  - fits_all.
  - right. lia.
  - vm_compute. lia.
  - exists error, w'. split; [exact H|]. apply Hiff. vm_compute. reflexivity.
Defined.


(** C9 as stated fails: key 2 has no occurrence among the whole records
    before the malformed point, and [get] for its occurrence 0 returns
    [OT_ERROR_NONE] all the same, with bytes of the tail in the buffer: the
    overrunning header at the malformed point has that key. *)
Lemma get_malformed_tail_counterexample :
  malformed false (cut_short false) ∧
  occurrences 2 [(1, AB)] = [] ∧
  otPosixSecureSettingsGet false
      (store_of (encode_store false [(1, AB)] ++ cut_short false) []) 2 0
      (Some zeros) (Some 2) =
    Some (OT_ERROR_NONE, Some [x01; x02], Some 10) ∧
  otPosixSecureSettingsGet false
      (store_of (encode_store false [(1, AB)] ++ cut_short false) []) 2 0
      (Some (zeros ++ zeros)) (Some 4) =
    Some (OT_ERROR_NONE, Some [x01; x02; x03; x00], Some 4) ∧
  otPosixSecureSettingsGet false
      (store_of (encode_store false [(1, AB)] ++ cut_short false) []) 2 0
      (Some zeros) (Some 2) ≠
    Some (OT_ERROR_NOT_FOUND, Some zeros, Some 2).
Proof.
  split_and!.
  - right. split; vm_compute; lia.
  - reflexivity.
  - vm_compute. reflexivity.
  - vm_compute. reflexivity.
  - intros H. vm_compute in H. discriminate.
Qed.

(** C9 for a key that neither the whole record nor the tail has. *)
Lemma get_malformed_tail_witness :
  malformed false (cut_short false) ∧
  otPosixSecureSettingsGet false
      (store_of (encode_store false [(1, AB)] ++ (cut_short false)) []) 3 0
      (Some zeros) (Some 2) =
    Some (OT_ERROR_NOT_FOUND, Some zeros, Some 2).
Proof.
  assert (Hbad : malformed false (cut_short false)) by (right; split; vm_compute; lia).
  split; [exact Hbad|].
  destruct (get_malformed_tail false
              (store_of (encode_store false [(1, AB)] ++ (cut_short false)) [])
              [(1, AB)] (cut_short false) 3 0 (Some zeros) (Some 2))
    as (_ & H & _).
  - reflexivity.
  - fits_all.
  - exact Hbad.
  - lia.
  - apply H.
    + vm_compute. lia.
    + intros (_ & Hk & _). vm_compute in Hk. discriminate.
Defined.

(** C10 as stated fails: with a capacity of 2, not more than the 3 bytes
    left, the length does not keep the capacity: it is set to the 10 of the
    header. *)
Lemma get_overrun_record_counterexample :
  overrun false (cut_short false) ∧
  u16_value false (pread (cut_short false) 0 2) = 2 ∧
  otPosixSecureSettingsGet false (store_of (cut_short false) []) 2 0 (Some zeros) (Some 2) =
    Some (OT_ERROR_NONE, Some [x01; x02], Some 10) ∧
  ¬ (∃ b, otPosixSecureSettingsGet false (store_of (cut_short false) []) 2 0
            (Some zeros) (Some 2) = Some (OT_ERROR_NONE, b, Some 2)).
Proof.
  split_and!.
  - split; vm_compute; lia.
  - reflexivity.
  - vm_compute. reflexivity.
  - intros [b H]. vm_compute in H. discriminate.
Qed.

(** C10, amended, with a capacity of 4 where 3 bytes are left. *)
Lemma get_overrun_record_witness :
  overrun false (cut_short false) ∧
  otPosixSecureSettingsGet false (store_of (cut_short false) []) 2 0
      (Some [x00; x00; x00; x00]) (Some 4) =
    Some (OT_ERROR_NONE, Some [x01; x02; x03; x00], Some 4).
Proof.
  assert (Hover : overrun false (cut_short false)) by (split; vm_compute; lia).
  split; [exact Hover|].
  apply (get_overrun_record false (store_of (cut_short false) []) [] (cut_short false) 2 0
           [x00; x00; x00; x00] 4).
  - reflexivity.
  - fits_all.
  - exact Hover.
  - reflexivity.
  - lia.
  - reflexivity.
Defined.

(** ** The further properties on concrete stores *)

Lemma get_missing_occurrence_witness :
  otPosixSecureSettingsGet false
      (store_of (encode_store false [(1, AB); (2, CD)]) []) 1 1
      (Some zeros) (Some 2) =
    Some (OT_ERROR_NOT_FOUND, Some zeros, Some 2).
Proof.
  apply (get_missing_occurrence false
           (store_of (encode_store false [(1, AB); (2, CD)]) [])
           [(1, AB); (2, CD)] 1 1 (Some zeros) (Some 2)).
  - reflexivity.
  - fits_all.
  - lia.
  - vm_compute. lia.
Defined.

Lemma get_on_closed_descriptor_witness :
  otPosixSecureSettingsGet false
      (otPosixSecureSettingsDeinit (store_of (encode_store false [(1, AB)]) [])) 1 0
      (Some zeros) (Some 2) =
    Some (OT_ERROR_NOT_FOUND, Some zeros, Some 2).
Proof.
  apply (get_on_closed_descriptor false
           (otPosixSecureSettingsDeinit (store_of (encode_store false [(1, AB)]) []))
           1 0 (Some zeros) (Some 2)).
  reflexivity.
Defined.

Lemma set_returns_or_dies_witness :
  ∃ o,
    otPosixSecureSettingsSet false (store_of (encode_store false [(7, CD)]) []) 1 AB 2 =
      Some o ∧
    ∃ w', o = Returned OT_ERROR_NONE w'.
Proof.
  destruct (set_returns_or_dies false
              (store_of (encode_store false [(7, CD)]) []) 1 AB 2)
    as (o & H & [[_ Hr]|[Hroom _]]).
  - vm_compute. lia.
  - exists o. split; [exact H | exact Hr].
  - vm_compute in Hroom. lia.
Defined.

Lemma set_failure_loses_key_witness :
  ∃ w',
    otPosixSecureSettingsSet false
        (otPosixSecureSettingsInit
           (World {[0 := encode_store false [(1, AB); (2, CD)]]}
                  (Some 0) None None 7 []))
        1 (AB ++ CD) 4 =
      Some (Terminated w') ∧
    store_holds false w' [(2, CD)].
Proof.
  destruct (set_failure_loses_key false
              (otPosixSecureSettingsInit
                 (World {[0 := encode_store false [(1, AB); (2, CD)]]}
                        (Some 0) None None 7 []))
              [(1, AB); (2, CD)] 1 (AB ++ CD) 4)
    as (w' & H & Hs).
  - split; [reflexivity | discriminate].
  - fits_all.
  - vm_compute. lia.
  - vm_compute. lia.
  - vm_compute. lia.
  - exists w'. split; [exact H | exact Hs].
Defined.

Lemma set_then_get_witness :
  ∃ w',
    otPosixSecureSettingsSet false (store_of (encode_store false [(7, CD)]) []) 1 AB 2 =
      Some (Returned OT_ERROR_NONE w') ∧
    otPosixSecureSettingsGet false
        (otPosixSecureSettingsInit (otPosixSecureSettingsDeinit w')) 1 0
        (Some zeros) (Some 2) =
      Some (OT_ERROR_NONE, Some AB, Some 2) ∧
    otPosixSecureSettingsGet false
        (otPosixSecureSettingsInit (otPosixSecureSettingsDeinit w')) 7 0
        (Some zeros) (Some 2) =
      Some (OT_ERROR_NOT_FOUND, Some zeros, Some 2).
Proof.
  destruct (set_then_get false (store_of (encode_store false [(7, CD)]) []) 1 AB)
    as (w' & H & Hg & Hn).
  - split; cbv -[Nat.mul lt]; lia.
  - vm_compute. lia.
  - exists w'. split; [exact H|]. split.
    + exact (Hg (Some zeros) (Some 2)).
    + apply Hn; [lia | left; lia].
Defined.

Lemma delete_rewrites_store_witness :
  ∃ error w' rs',
    otPosixSecureSettingsDelete false
        (store_of (encode_store false [(1, AB); (2, CD); (1, CD)]) []) 1 1 =
      Some (error, w') ∧
    store_holds false w' rs' ∧
    occurrences 1 rs' = [(1, AB)] ∧
    occurrences 2 rs' = [(2, CD)].
Proof.
  destruct (delete_rewrites_store false
              (store_of (encode_store false [(1, AB); (2, CD); (1, CD)]) [])
              [(1, AB); (2, CD); (1, CD)] 1 1)
    as (error & w' & rs' & H & Hs & _ & Hk & Hothers).
  - split; [reflexivity | discriminate].
  - fits_all.
  - right. lia.
  - vm_compute. lia.
  - exists error, w', rs'. split; [exact H|]. split; [exact Hs|].
    split; [exact Hk|]. apply (Hothers 2). lia.
Defined.

Lemma delete_missing_occurrence_witness :
  ∃ w',
    otPosixSecureSettingsDelete false
        (store_of (encode_store false [(1, AB); (2, CD)]) []) 3 0 =
      Some (OT_ERROR_NOT_FOUND, w') ∧
    store_holds false w' [(1, AB); (2, CD)].
Proof.
  destruct (delete_missing_occurrence false
              (store_of (encode_store false [(1, AB); (2, CD)]) [])
              [(1, AB); (2, CD)] 3 0)
    as (w' & H & Hs & _).
  - split; [reflexivity | discriminate].
  - fits_all.
  - lia.
  - vm_compute. lia.
  - vm_compute. lia.
  - exists w'. split; [exact H | exact Hs].
Defined.

Lemma delete_on_closed_descriptor_witness :
  ∃ w',
    otPosixSecureSettingsDelete false
        (otPosixSecureSettingsDeinit (store_of (encode_store false [(1, AB)]) []))
        1 0 =
      Some (OT_ERROR_NOT_FOUND, w') ∧
    store_file w' = Some [].
Proof.
  destruct (delete_on_closed_descriptor false
              (otPosixSecureSettingsDeinit
                 (store_of (encode_store false [(1, AB)]) [])) 1 0)
    as (w' & H & Hs & _).
  - reflexivity.
  - exists w'. split; [exact H | exact Hs].
Defined.

Lemma deletes_do_not_compose_witness :
  ∃ e1 w1 e2 w2,
    otPosixSecureSettingsDelete false
        (store_of (encode_store false [(1, AB); (2, CD); (1, CD)]) []) 1 0 =
      Some (e1, w1) ∧
    store_holds false w1 [(2, CD)] ∧
    otPosixSecureSettingsDelete false w1 2 0 = Some (e2, w2) ∧
    store_holds false w2 [(1, AB); (1, CD)].
Proof.
  apply (deletes_do_not_compose false
           (store_of (encode_store false [(1, AB); (2, CD); (1, CD)]) [])
           [(1, AB); (2, CD); (1, CD)] 1 0 2 0).
  - split; [reflexivity | discriminate].
  - fits_all.
  - right. lia.
  - right. lia.
  - vm_compute. lia.
  - vm_compute. lia.
Defined.

Lemma delete_then_reopen_get_witness :
  ∃ error w',
    otPosixSecureSettingsDelete false
        (store_of (encode_store false [(1, AB); (2, CD); (1, CD)]) []) 1 1 =
      Some (error, w') ∧
    otPosixSecureSettingsGet false
        (otPosixSecureSettingsInit (otPosixSecureSettingsDeinit w')) 1 1
        (Some zeros) (Some 2) =
      Some (OT_ERROR_NOT_FOUND, Some zeros, Some 2).
Proof.
  destruct (delete_then_reopen_get false
              (store_of (encode_store false [(1, AB); (2, CD); (1, CD)]) [])
              [(1, AB); (2, CD); (1, CD)] 1 1)
    as (error & w' & H & Hg).
  - split; [reflexivity | discriminate].
  - fits_all.
  - lia.
  - vm_compute. lia.
  - exists error, w'. split; [exact H|].
    rewrite (Hg 1 1%Z (Some zeros) (Some 2)) by lia.
    apply decide_True. split; [reflexivity | lia].
Defined.

Lemma delete_unseen_by_get_witness :
  ∃ error w',
    otPosixSecureSettingsDelete false
        (store_of (encode_store false [(1, AB); (2, CD)]) []) 1 0 =
      Some (error, w') ∧
    otPosixSecureSettingsGet false w' 1 0 (Some zeros) (Some 2) =
      Some (OT_ERROR_NONE, Some AB, Some 2).
Proof.
  destruct (delete_unseen_by_get false
              (store_of (encode_store false [(1, AB); (2, CD)]) []) 1 0)
    as (error & w' & H & _ & Hg).
  - intros j Hj. vm_compute in Hj. injection Hj as <-. split.
    + exists (encode_store false [(1, AB); (2, CD)]). reflexivity.
    + discriminate.
  - exists error, w'. split; [exact H|]. rewrite Hg. vm_compute. reflexivity.
Defined.

Lemma set_unseen_by_get_witness :
  ∃ o,
    otPosixSecureSettingsSet false
        (store_of (encode_store false [(1, AB); (2, CD)]) []) 1 CD 2 =
      Some o ∧
    otPosixSecureSettingsGet false (world_of o) 1 0 (Some zeros) (Some 2) =
      Some (OT_ERROR_NONE, Some AB, Some 2).
Proof.
  destruct (set_unseen_by_get false
              (store_of (encode_store false [(1, AB); (2, CD)]) []) 1 CD 2)
    as (o & H & _ & Hg).
  - intros j Hj. vm_compute in Hj. injection Hj as <-. split.
    + exists (encode_store false [(1, AB); (2, CD)]). reflexivity.
    + discriminate.
  - exists o. split; [exact H|]. rewrite Hg. vm_compute. reflexivity.
Defined.

Lemma wipe_undone_by_delete_witness :
  ∃ error w',
    otPosixSecureSettingsDelete false
        (otPosixSecureSettingsWipe
           (store_of (encode_store false [(1, AB); (2, CD)]) [])) 1 0 =
      Some (error, w') ∧
    store_holds false w' [(2, CD)].
Proof.
  apply (wipe_undone_by_delete false
           (store_of (encode_store false [(1, AB); (2, CD)]) [])
           [(1, AB); (2, CD)] 1 0).
  - split; [reflexivity | discriminate].
  - fits_all.
  - right. lia.
  - vm_compute. lia.
Defined.

Lemma init_opens_store_witness :
  store_file (otPosixSecureSettingsInit
                (World {[0 := AB]} (Some 0) None None 4096 [])) = Some AB ∧
  store_file (otPosixSecureSettingsInit fresh_world) = Some [].
Proof.
  split.
  - destruct (proj1 (init_opens_store (World {[0 := AB]} (Some 0) None None 4096 []))
                AB) as [H _]; [reflexivity | exact H].
  - destruct (proj2 (init_opens_store fresh_world)) as [H _];
      [reflexivity | exact H].
Defined.

Lemma init_scan_ends_witness :
  init_scan false (World {[0 := encode_store false [(1, AB); (2, CD)]]}
                         (Some 0) None None 4096 []) = Some 12%Z.
Proof.
  apply (proj2 (init_scan_ends false
                  (World {[0 := encode_store false [(1, AB); (2, CD)]]}
                         (Some 0) None None 4096 []))
           [(1, AB); (2, CD)]).
  - reflexivity.
  - fits_all.
Defined.

Lemma header_field_both_ways_witness :
  u16_bytes false (u16_value false AB) = AB ∧ u16_value false AB < 256 * 256.
Proof.
  destruct (proj1 (header_field_both_ways false) AB) as [H1 H2];
    [reflexivity | split; [exact H1 | exact H2]].
Defined.

Lemma get_negative_index_witness :
  otPosixSecureSettingsGet false
      (store_of (encode_store false [(1, AB); (2, CD)]) []) 1 (-1)
      (Some zeros) (Some 2) =
    Some (OT_ERROR_NOT_FOUND, Some zeros, Some 2).
Proof.
  apply (get_negative_index false
           (store_of (encode_store false [(1, AB); (2, CD)]) []) 1 (-1)
           (Some zeros) (Some 2)).
  - lia.
  - vm_compute. reflexivity.
Defined.

Lemma delete_partial_header_witness :
  ∃ w',
    otPosixSecureSettingsDelete false
        (store_of (encode_store false [(1, AB); (2, CD)] ++ [x00]) []) 1 0 =
      Some (OT_ERROR_NONE, w') ∧
    store_file w' = Some (encode_store false [(1, AB); (2, CD)] ++ [x00]).
Proof.
  destruct (delete_partial_header false
              (store_of (encode_store false [(1, AB); (2, CD)] ++ [x00]) [])
              [(1, AB); (2, CD)] [x00] 1 0)
    as (w' & H & Hs & _).
  - reflexivity.
  - discriminate.
  - reflexivity.
  - split; vm_compute; lia.
  - fits_all.
  - right. lia.
  - vm_compute. lia.
  - exists w'. split; [exact H | exact Hs].
Defined.

Lemma delete_pads_overrun_witness :
  ∃ w' pad,
    otPosixSecureSettingsDelete false
        (store_of (encode_store false [(1, AB)] ++ cut_short false) []) 1 0 =
      Some (OT_ERROR_NONE, w') ∧
    length pad = 7 ∧
    store_holds false w' [(2, [x01; x02; x03] ++ pad)].
Proof.
  destruct (delete_pads_overrun false
              (store_of (encode_store false [(1, AB)] ++ cut_short false) [])
              [(1, AB)] 2 10 [x01; x02; x03] 1 0)
    as (w' & pad & H & Hp & Hs).
  - reflexivity.
  - discriminate.
  - fits_all.
  - right. lia.
  - cbv -[Nat.mul lt]. lia.
  - lia.
  - vm_compute. lia.
  - lia.
  - vm_compute. lia.
  - exists w', pad. split; [exact H | split; [exact Hp | exact Hs]].
Defined.
